(** * boneIO: the Manager of [boneio/manager.py]

    A shallow embedding of the Manager (construction, inbound command
    routing, input event routing, Home Assistant autodiscovery) together
    with the Python built-ins it relies on, and the properties of the
    natural-language specification that concern it.

    Python values are embedded as [pyval]; [dict]s that the Manager builds
    and iterates over are insertion-ordered association lists; configuration
    dictionaries, which are only ever indexed, are [gmap]s.  Effects
    (logging, sleeping, hardware construction, MQTT publishes, method calls
    on output devices) are recorded, in program order, in a trace of
    [event]s; exceptions are values of [exn]. *)

From Stdlib Require Import ssreflect ZArith Ascii String List Lia.
From stdpp Require Import base option list gmap strings pretty.

Local Open Scope general_if_scope.
#[local] Set Warnings "-rewrite-rw".
Local Open Scope list_scope.
Local Open Scope stdpp_scope.

(** ** Python layer *)

Module Py.

(** The scalars of a configuration that the Manager looks at: [None],
    integers and strings. *)
Inductive pyval : Type :=
  | VNone
  | VInt (z : Z)
  | VStr (s : string).

#[global] Instance pyval_eq_dec : EqDecision pyval.
Proof. solve_decision. Defined.

(** Truth value testing of [bool(v)]. *)
Definition truthy (v : pyval) : bool :=
  match v with
  | VNone => false
  | VInt z => negb (Z.eqb z 0)
  | VStr s => negb (String.eqb s "")
  end.

(** [str(v)], which is what an f-string placeholder [{v}] formats. *)
Definition str (v : pyval) : string :=
  match v with
  | VNone => "None"
  | VInt z => pretty z
  | VStr s => s
  end.

(** Exceptions raised by the constructs the Manager uses. *)
Inductive exn : Type :=
  | KeyError (key : pyval)
  | AttributeError (attr : string)
  | TypeError
  | ValueError.

(** *** [str.replace]

    [replace_from old new skip s] scans [s] from the left.  While [skip]
    is positive the characters belong to an occurrence of [old] that has
    already been replaced.  Otherwise, when [old] starts here, [new] is
    emitted and the rest of the occurrence is skipped, so that occurrences
    are found from left to right and do not overlap. *)
Fixpoint replace_from (old new : string) (skip : nat) (s : string) : string :=
  match s with
  | EmptyString => EmptyString
  | String c s' =>
      match skip with
      | S k => replace_from old new k s'
      | O =>
          if String.prefix old s
          then new +:+ replace_from old new (String.length old - 1) s'
          else String c (replace_from old new 0 s')
      end
  end.

(** With an empty [old], Python puts [new] before every character and at
    the end. *)
Fixpoint replace_empty (new : string) (s : string) : string :=
  match s with
  | EmptyString => new
  | String c s' => new +:+ String c (replace_empty new s')
  end.

(** [s.replace(old, new)] *)
Definition replace (s old new : string) : string :=
  match old with
  | EmptyString => replace_empty new s
  | String _ _ => replace_from old new 0 s
  end.

(** [old in s] *)
Fixpoint occurs (old s : string) : bool :=
  String.prefix old s
  || match s with
     | EmptyString => false
     | String _ s' => occurs old s'
     end.

(** Number of occurrences of the character [c] in [s]. *)
Fixpoint count_char (c : ascii) (s : string) : nat :=
  match s with
  | EmptyString => 0
  | String c' s' => (if Ascii.eqb c c' then 1 else 0) + count_char c s'
  end.

(** *** Insertion-ordered dictionaries

    A Python [dict] keeps its keys in insertion order, and assigning to a
    key that is present keeps the key's position. *)
Section odict.
Context {V : Type}.

Definition odict : Type := list (pyval * V).

Fixpoint dict_get (d : odict) (k : pyval) : option V :=
  match d with
  | [] => None
  | (k', v) :: d' => if decide (k = k') then Some v else dict_get d' k
  end.

Fixpoint dict_set (d : odict) (k : pyval) (v : V) : odict :=
  match d with
  | [] => [(k, v)]
  | (k', v') :: d' =>
      if decide (k = k') then (k', v) :: d' else (k', v') :: dict_set d' k v
  end.

Definition dict_keys (d : odict) : list pyval := map fst d.
Definition dict_values (d : odict) : list V := map snd d.
Definition dict_in (k : pyval) (d : odict) : bool :=
  bool_decide (is_Some (dict_get d k)).
End odict.
#[global] Arguments odict : clear implicits.

End Py.
Import Py.

(** ** Constants of [boneio/const.py] *)

(** Modelled from the spec: [boneio/const.py] is not under src/.  These are
    the constants that appear on the wire, and the spec's section on
    external interfaces fixes them: topics [{prefix}/state],
    [{prefix}/relay/{id}] and [{prefix}/relay/+/set], the status payload
    "online", the command payloads "ON" and "OFF" and the action kind
    "output". *)
Module Const.
Definition OFF : string := "OFF".
Definition ON : string := "ON".
Definition ONLINE : string := "online".
Definition OUTPUT : string := "output".
Definition RELAY : string := "relay".
Definition STATE : string := "state".
End Const.
Import Const.

(** What the Manager imports and the sources do not show is a parameter of
    the development: the spelling of the configuration keys and of the two
    kind tags of [boneio/const.py], the version string of
    [boneio/version.py], the names of the collectors in
    [helper.stats.host_stats], the [ha_type] attribute a [GpioRelay] gets
    from its class (the Manager does not pass one), and Python's parser of
    integer literals behind [int(str)]. *)
Class Externals : Type := {
  ACTION : string;
  ACTIONS : string;
  ADDRESS : string;
  GPIO : string;
  HA_TYPE : string;
  ID : string;
  INIT_SLEEP : string;
  KIND : string;
  MCP : string;
  MCP_ID : string;
  PIN : string;
  __version__ : string;
  host_stats : list string;
  GpioRelay_ha_type : pyval;
  int_of_str : string -> option Z;
}.

(** ** Data model *)

(** A configuration dictionary (one expander, one output, one action). *)
Abbreviation cfg := (gmap string pyval).

(** The action mapping of an input: click kind to action dictionary. *)
Abbreviation action_map := (gmap string (gmap string pyval)).

(** An input configuration: its scalar entries, and the nested mapping
    stored under [ACTIONS] when there is one. *)
Record input_cfg : Type := {
  in_fields : cfg;
  in_actions : option action_map;
}.

(** The handle [MCP23017(i2c, address)] of an expander.  Handles and
    output devices are plain objects: in a condition they count as true. *)
Record MCP23017 : Type := { mcp_address : pyval }.

(** An output device as the Manager constructs it: [MCPRelay(pin, id,
    send_message, topic_prefix, mcp, mcp_id, ha_type, callback)] or
    [GpioRelay(pin, id, send_message, topic_prefix, callback)].
    [dev_callback] is the group key the callback closure forwards to
    [_host_data_callback]. *)
Inductive relay_class : Type :=
  | MCPRelay (mcp : MCP23017) (mcp_id : pyval)
  | GpioRelay.

Record OutputDevice : Type := {
  dev_class : relay_class;
  dev_pin : pyval;
  dev_id : pyval;
  dev_ha_type : pyval;
  dev_callback : pyval;
}.

(** A message payload: [Union[str, dict]]. *)
#[warnings="-register-all"]
Inductive json : Type :=
  | JStr (s : string)
  | JList (l : list json)
  | JDict (kv : list (string * json)).

Inductive level : Type := DEBUG | INFO | ERROR.

(** The methods of an output device the Manager calls or schedules. *)
Inductive device_op : Type := turn_on | turn_off | toggle | send_state.

(** What the Manager does to its collaborators, in program order. *)
Inductive event : Type :=
  | Log (lvl : level) (msg : string)
  | NewI2C
  | NewMCP23017 (address : pyval)
  | Sleep (seconds : Z)
  | NewRelay (d : OutputDevice)
  | SendMessage (topic : string) (payload : json)
  | CallLater (delay_ms : Z) (d : OutputDevice) (op : device_op)
  | NewButton (pin : pyval) (rest_pin : input_cfg)
  | NewHostData
  | CreateTask (collector : string)
  | NewOled (output_groups : list pyval)
  | OledUpdate (group : pyval)
  | Invoke (d : OutputDevice) (op : device_op).

(** The attributes of a Manager.  [_oled] and [_host_data] say whether the
    attribute holds its object or [None]; [_tasks] names the collectors
    whose tasks were started; [buttons] lists the pins of the buttons. *)
Record Manager : Type := {
  _topic_prefix : string;
  relay_topic : string;
  _input_pins : list input_cfg;
  _mcp : odict MCP23017;
  _grouped_outputs : odict (odict OutputDevice);
  _oled : bool;
  _host_data : bool;
  _tasks : list string;
  output : odict (option OutputDevice);
  buttons : list pyval;
}.

(** The arguments of [Manager.__init__], all of them given: the defaults
    of the signature are left to the caller. *)
Record init_args : Type := {
  topic_prefix : string;
  relay_pins : list cfg;
  input_pins : list input_cfg;
  ha_discovery : bool;
  ha_discovery_prefix : string;
  mcp23017 : option (list cfg);
  oled : bool;
  web : bool;
}.

(** ** Effects: a trace of events, an exception or a result, a Manager under
    construction *)

Definition M (A : Type) : Type :=
  Manager -> list event * (exn + A * Manager).

Definition ret {A} (a : A) : M A := fun m => ([], inr (a, m)).

Definition raise {A} (e : exn) : M A := fun _ => ([], inl e).

Definition bind {A B} (c : M A) (k : A -> M B) : M B :=
  fun m =>
    match c m with
    | (t, inl e) => (t, inl e)
    | (t, inr (a, m')) => let '(t', r) := k a m' in (t ++ t', r)
    end.

Notation "x <- c ;; k" := (bind c (fun x => k))
  (at level 20, c at level 99, k at level 200, only parsing).
Notation "c ;; k" := (bind c (fun _ => k))
  (at level 100, k at level 200, right associativity, only parsing).

Definition emit (ev : event) : M unit := fun m => ([ev], inr (tt, m)).
Definition self : M Manager := fun m => ([], inr (m, m)).
Definition modify (f : Manager -> Manager) : M unit :=
  fun m => ([], inr (tt, f m)).

Fixpoint for_each {A} (f : A -> M unit) (l : list A) : M unit :=
  match l with
  | [] => ret tt
  | x :: l' => f x ;; for_each f l'
  end.

(** [d[k]] on a configuration dictionary *)
Definition getitem (d : cfg) (k : string) : M pyval :=
  match d !! k with
  | Some v => ret v
  | None => raise (KeyError (VStr k))
  end.

(** [d[k]] on a dictionary of the Manager *)
Definition dict_getitem {V} (d : odict V) (k : pyval) : M V :=
  match dict_get d k with
  | Some v => ret v
  | None => raise (KeyError k)
  end.

(** [time.sleep(t)] for the values of [pyval] *)
Definition sleep (t : pyval) : M unit :=
  match t with
  | VInt z => if (z <? 0)%Z then raise ValueError else emit (Sleep z)
  | _ => raise TypeError
  end.

(** Reading the attribute [attr] of [out], a device or [None]: the device
    whose attribute is read. *)
Definition getattr (out : option OutputDevice) (attr : string) : M OutputDevice :=
  match out with
  | Some d => ret d
  | None => raise (AttributeError attr)
  end.

(** [int(v)] *)
Definition py_int `{Externals} (v : pyval) : M Z :=
  match v with
  | VInt z => ret z
  | VStr s =>
      match int_of_str s with
      | Some z => ret z
      | None => raise ValueError
      end
  | VNone => raise TypeError
  end.

(** Attribute assignments [self.attr = v]. *)
Definition set_mcp (v : odict MCP23017) (m : Manager) : Manager :=
  {| _topic_prefix := _topic_prefix m; relay_topic := relay_topic m;
     _input_pins := _input_pins m; _mcp := v;
     _grouped_outputs := _grouped_outputs m; _oled := _oled m;
     _host_data := _host_data m; _tasks := _tasks m; output := output m;
     buttons := buttons m |}.

Definition set_grouped_outputs (v : odict (odict OutputDevice)) (m : Manager)
  : Manager :=
  {| _topic_prefix := _topic_prefix m; relay_topic := relay_topic m;
     _input_pins := _input_pins m; _mcp := _mcp m;
     _grouped_outputs := v; _oled := _oled m;
     _host_data := _host_data m; _tasks := _tasks m; output := output m;
     buttons := buttons m |}.

Definition set_oled (v : bool) (m : Manager) : Manager :=
  {| _topic_prefix := _topic_prefix m; relay_topic := relay_topic m;
     _input_pins := _input_pins m; _mcp := _mcp m;
     _grouped_outputs := _grouped_outputs m; _oled := v;
     _host_data := _host_data m; _tasks := _tasks m; output := output m;
     buttons := buttons m |}.

Definition set_host_data (v : bool) (m : Manager) : Manager :=
  {| _topic_prefix := _topic_prefix m; relay_topic := relay_topic m;
     _input_pins := _input_pins m; _mcp := _mcp m;
     _grouped_outputs := _grouped_outputs m; _oled := _oled m;
     _host_data := v; _tasks := _tasks m; output := output m;
     buttons := buttons m |}.

Definition set_tasks (v : list string) (m : Manager) : Manager :=
  {| _topic_prefix := _topic_prefix m; relay_topic := relay_topic m;
     _input_pins := _input_pins m; _mcp := _mcp m;
     _grouped_outputs := _grouped_outputs m; _oled := _oled m;
     _host_data := _host_data m; _tasks := v; output := output m;
     buttons := buttons m |}.

Definition set_output (v : odict (option OutputDevice)) (m : Manager)
  : Manager :=
  {| _topic_prefix := _topic_prefix m; relay_topic := relay_topic m;
     _input_pins := _input_pins m; _mcp := _mcp m;
     _grouped_outputs := _grouped_outputs m; _oled := _oled m;
     _host_data := _host_data m; _tasks := _tasks m; output := v;
     buttons := buttons m |}.

Definition set_buttons (v : list pyval) (m : Manager) : Manager :=
  {| _topic_prefix := _topic_prefix m; relay_topic := relay_topic m;
     _input_pins := _input_pins m; _mcp := _mcp m;
     _grouped_outputs := _grouped_outputs m; _oled := _oled m;
     _host_data := _host_data m; _tasks := _tasks m; output := output m;
     buttons := v |}.

(** ** The Manager *)

Section manager.
Context `{Externals}.

(** [ha_availibilty_message(topic, relay_id)] *)
Definition ha_availibilty_message (topic : string) (relay_id : pyval) : json :=
  JDict [
    ("availability", JList [JDict [("topic", JStr (topic +:+ "/" +:+ STATE))]]);
    ("command_topic", JStr (topic +:+ "/relay/" +:+ str relay_id +:+ "/set"));
    ("device", JDict [
      ("identifiers", JList [JStr topic]);
      ("manufacturer", JStr "BoneIO");
      ("model", JStr "BoneIO Relay Board");
      ("name", JStr ("BoneIO " +:+ topic));
      ("sw_version", JStr __version__)]);
    ("name", JStr ("Relay " +:+ str relay_id));
    ("payload_off", JStr OFF);
    ("payload_on", JStr ON);
    ("state_topic", JStr (topic +:+ "/" +:+ RELAY +:+ "/" +:+ str relay_id));
    ("unique_id", JStr (topic +:+ RELAY +:+ str relay_id));
    ("value_template", JStr "{{ value_json.state }}")
  ].

(** [Manager._host_data_callback(self, type)] *)
Definition _host_data_callback (type : pyval) : M unit :=
  m <- self ;;
  if _oled m then emit (OledUpdate type) else ret tt.

(** [Manager.get_tasks(self)] *)
Definition get_tasks (m : Manager) : list string := _tasks m.

(** [Manager.send_ha_autodiscovery(self, relay, prefix, ha_type)] *)
Definition send_ha_autodiscovery (relay : pyval) (prefix : string)
    (ha_type : pyval) : M unit :=
  m <- self ;;
  let msg := ha_availibilty_message (_topic_prefix m) relay in
  let topic :=
    prefix +:+ "/" +:+ str ha_type +:+ "/" +:+ _topic_prefix m +:+ "/"
      +:+ str ha_type +:+ "/config" in
  emit (SendMessage topic msg).

(** [Manager.press_callback(self, x, inpin, actions)].  An action that is
    an empty dictionary is falsy; a device object is truthy. *)
Definition press_callback (x : string) (inpin : string)
    (actions : action_map) : M unit :=
  m <- self ;;
  emit (SendMessage (_topic_prefix m +:+ "/input/" +:+ inpin) (JStr x)) ;;
  match actions !! x with
  | Some action =>
      if decide (action = ∅) then ret tt
      else
        kind <- getitem action ACTION ;;
        if decide (kind = VStr OUTPUT) then
          pin <- getitem action PIN ;;
          match dict_get (output m) pin with
          | Some (Some output_gpio) => emit (Invoke output_gpio toggle)
          | _ => ret tt
          end
        else ret tt
  | None => ret tt
  end.

(** The output id [receive_message] extracts from a topic. *)
Definition extracted_relay (prefix topic : string) : string :=
  replace (replace topic (prefix +:+ "/" +:+ RELAY +:+ "/") "") "/set" "".

(** [Manager.receive_message(self, topic, message)] *)
Definition receive_message (topic message : string) : M unit :=
  m <- self ;;
  match dict_get (output m) (VStr (extracted_relay (_topic_prefix m) topic)) with
  | Some (Some target_device) =>
      if String.eqb message ON then emit (Invoke target_device turn_on)
      else if String.eqb message OFF then emit (Invoke target_device turn_off)
      else ret tt
  | _ => ret tt
  end.

(** *** Construction *)

(** The body of [for mcp in mcp23017]. *)
Definition register_expander (mcp : cfg) : M unit :=
  named <- getitem mcp ID ;;
  id <- (if truthy named then ret named else getitem mcp ADDRESS) ;;
  address <- getitem mcp ADDRESS ;;
  emit (NewMCP23017 address) ;;
  m <- self ;;
  modify (set_mcp (dict_set (_mcp m) id {| mcp_address := address |})) ;;
  let sleep_time := default (VInt 0) (mcp !! INIT_SLEEP) in
  emit (Log DEBUG ("Sleeping for " +:+ str sleep_time +:+ "s while MCP "
                     +:+ str id +:+ " is initializing.")) ;;
  sleep sleep_time ;;
  m <- self ;;
  modify (set_grouped_outputs (dict_set (_grouped_outputs m) id [])).

(** [configure_relay(gpio)]; [None] is what a bare [return], or falling
    off the end, returns. *)
Definition configure_relay (gpio : cfg) : M (option OutputDevice) :=
  kind <- getitem gpio KIND ;;
  if decide (kind = VStr MCP) then
    let mcp_id := default (VStr "") (gpio !! MCP_ID) in
    m <- self ;;
    match dict_get (_mcp m) mcp_id with
    | None => emit (Log ERROR "No such MCP configured!") ;; ret None
    | Some mcp =>
        relay_id <- getitem gpio ID ;;
        pin <- (p <- getitem gpio PIN ;; py_int p) ;;
        ha_type <- getitem gpio HA_TYPE ;;
        let mcp_relay :=
          {| dev_class := MCPRelay mcp mcp_id; dev_pin := VInt pin;
             dev_id := relay_id; dev_ha_type := ha_type;
             dev_callback := mcp_id |} in
        emit (NewRelay mcp_relay) ;;
        group <- dict_getitem (_grouped_outputs m) mcp_id ;;
        modify (set_grouped_outputs
                  (dict_set (_grouped_outputs m) mcp_id
                     (dict_set group relay_id mcp_relay))) ;;
        ret (Some mcp_relay)
    end
  else if decide (kind = VStr GPIO) then
    m <- self ;;
    (if dict_in (VStr GPIO) (_grouped_outputs m) then ret tt
     else modify (set_grouped_outputs
                    (dict_set (_grouped_outputs m) (VStr GPIO) []))) ;;
    pin <- getitem gpio PIN ;;
    relay_id <- getitem gpio ID ;;
    let gpio_relay :=
      {| dev_class := GpioRelay; dev_pin := pin; dev_id := relay_id;
         dev_ha_type := GpioRelay_ha_type; dev_callback := VStr GPIO |} in
    emit (NewRelay gpio_relay) ;;
    m <- self ;;
    group <- dict_getitem (_grouped_outputs m) (VStr GPIO) ;;
    modify (set_grouped_outputs
              (dict_set (_grouped_outputs m) (VStr GPIO)
                 (dict_set group relay_id gpio_relay))) ;;
    ret (Some gpio_relay)
  else ret None.

(** [{gpio[ID]: configure_relay(gpio) for gpio in relay_pins}], the key
    being evaluated before the value. *)
Fixpoint output_comprehension (pins : list cfg)
    (acc : odict (option OutputDevice)) : M (odict (option OutputDevice)) :=
  match pins with
  | [] => ret acc
  | gpio :: pins' =>
      key <- getitem gpio ID ;;
      value <- configure_relay gpio ;;
      output_comprehension pins' (dict_set acc key value)
  end.

(** The body of [for out in self.output.values()]: the autodiscovery
    descriptor when enabled, then
    [loop.call_soon_threadsafe(loop.call_later, 0.5, out.send_state)]. *)
Definition announce (discovery : bool) (prefix : string)
    (out : option OutputDevice) : M unit :=
  (if discovery then
     emit (Log DEBUG "Sending HA discovery.") ;;
     d <- getattr out "id" ;;
     d' <- getattr out "ha_type" ;;
     send_ha_autodiscovery (dev_id d) prefix (dev_ha_type d')
   else ret tt) ;;
  d <- getattr out "send_state" ;;
  emit (CallLater 500 d send_state).

(** [[GpioInputButton(pin=gpio[PIN], ...) for gpio in self._input_pins]] *)
Fixpoint buttons_comprehension (pins : list input_cfg) : M (list pyval) :=
  match pins with
  | [] => ret []
  | gpio :: pins' =>
      pin <- getitem (in_fields gpio) PIN ;;
      emit (NewButton pin gpio) ;;
      rest <- buttons_comprehension pins' ;;
      ret (pin :: rest)
  end.

(** The [press_callback] lambda handed to every button.  It closes over
    the comprehension variable [gpio], which it reads when it is called:
    by then the comprehension is over and [gpio] is the last input. *)
Definition button_press_callback (x i : string) : M unit :=
  m <- self ;;
  match last (_input_pins m) with
  | Some gpio =>
      match in_actions gpio with
      | Some actions => press_callback x i actions
      | None => raise (KeyError (VStr ACTIONS))
      end
  | None => ret tt
  end.

(** The body of [for f in host_stats.values()]. *)
Definition start_collector (f : string) : M unit :=
  emit (CreateTask f) ;;
  m <- self ;;
  modify (set_tasks (_tasks m ++ [f])).

(** The attributes [__init__] assigns before its first loop. *)
Definition fresh (a : init_args) : Manager :=
  {| _topic_prefix := topic_prefix a;
     relay_topic := topic_prefix a +:+ "/" +:+ RELAY +:+ "/+/set";
     _input_pins := input_pins a; _mcp := []; _grouped_outputs := [];
     _oled := false; _host_data := false; _tasks := []; output := [];
     buttons := [] |}.

(** The expander phase: [if mcp23017: for mcp in mcp23017: ...]. *)
Definition register_expanders (a : init_args) : M unit :=
  match mcp23017 a with
  | Some ((_ :: _) as expanders) => for_each register_expander expanders
  | _ => ret tt
  end.

(** The output phase: the comprehension and the loop over its values. *)
Definition configure_outputs (a : init_args) : M unit :=
  outputs <- output_comprehension (relay_pins a) [] ;;
  modify (set_output outputs) ;;
  for_each (announce (ha_discovery a) (ha_discovery_prefix a))
    (dict_values outputs).

(** The input phase: [self.buttons = [...]]. *)
Definition create_buttons : M unit :=
  m <- self ;;
  created <- buttons_comprehension (_input_pins m) ;;
  modify (set_buttons created).

(** [if oled or web: ...] *)
Definition gather_host_data (a : init_args) : M unit :=
  if oled a || web a then
    modify (set_host_data true) ;;
    emit NewHostData ;;
    for_each start_collector host_stats ;;
    emit (Log DEBUG "Gathering host data enabled.")
  else ret tt.

(** [if oled: ...] *)
Definition start_oled (a : init_args) : M unit :=
  if oled a then
    m <- self ;;
    emit (NewOled (dict_keys (_grouped_outputs m))) ;;
    modify (set_oled true)
  else ret tt.

(** [Manager.__init__] *)
Definition __init__ (a : init_args) : M unit :=
  emit (Log INFO "Initializing manager module.") ;;
  emit NewI2C ;;
  register_expanders a ;;
  configure_outputs a ;;
  create_buttons ;;
  gather_host_data a ;;
  start_oled a ;;
  emit (SendMessage (topic_prefix a +:+ "/" +:+ STATE) (JStr ONLINE)) ;;
  emit (Log INFO "BoneIO manager is ready.").

(** [Manager(send_message, topic_prefix, relay_pins, input_pins, ...)]:
    the trace of the construction, and the Manager unless [__init__]
    raised. *)
Definition construct (a : init_args) : list event * (exn + Manager) :=
  match __init__ a (fresh a) with
  | (t, inl e) => (t, inl e)
  | (t, inr (_, m)) => (t, inr m)
  end.

(** Calling a method on a Manager: the trace, and the exception if any. *)
Definition call (c : M unit) (m : Manager) : list event * option exn :=
  match c m with
  | (t, inl e) => (t, Some e)
  | (t, inr _) => (t, None)
  end.
End manager.

(** ** A concrete environment

    One choice of the parameters: the key names and kind tags in lower
    case, two collectors, "switch" as the type of a direct relay and a
    plain decimal reader for [int(str)].  It serves to run the model on
    examples. *)
Module Sample.
Fixpoint digits (s : string) (acc : Z) : option Z :=
  match s with
  | EmptyString => Some acc
  | String c s' =>
      let n := Z.of_N (N_of_ascii c) in
      if ((48 <=? n) && (n <=? 57))%Z
      then digits s' (10 * acc + (n - 48))%Z
      else None
  end.

Definition decimal (s : string) : option Z :=
  match s with
  | EmptyString => None
  | String _ _ => digits s 0%Z
  end.

Definition externals : Externals := {|
  ACTION := "action"; ACTIONS := "actions"; ADDRESS := "address";
  GPIO := "gpio"; HA_TYPE := "ha_type"; ID := "id";
  INIT_SLEEP := "init_sleep"; KIND := "kind"; MCP := "mcp";
  MCP_ID := "mcp_id"; PIN := "pin"; __version__ := "0.0.1";
  host_stats := ["cpu"; "memory"]; GpioRelay_ha_type := VStr "switch";
  int_of_str := decimal |}.

(** An expander named [mcp1] at address 32, settling for 2 seconds. *)
Definition mcp1 : cfg :=
  {[ "id" := VStr "mcp1"; "address" := VInt 32; "init_sleep" := VInt 2 ]}.

(** An expander without a name at address 33. *)
Definition unnamed : cfg :=
  {[ "id" := VNone; "address" := VInt 33 ]}.

Definition expander_relay (id mcp_id : string) : cfg :=
  {[ "id" := VStr id; "kind" := VStr "mcp"; "mcp_id" := VStr mcp_id;
     "pin" := VStr "3"; "ha_type" := VStr "light" ]}.

Definition direct_relay (id : string) : cfg :=
  {[ "id" := VStr id; "kind" := VStr "gpio"; "pin" := VStr "P8_7" ]}.

Definition args (expanders : list cfg) (relays : list cfg) : init_args :=
  {| topic_prefix := "home1"; relay_pins := relays; input_pins := [];
     ha_discovery := true; ha_discovery_prefix := "homeassistant";
     mcp23017 := Some expanders; oled := false; web := true |}.

(** The Manager of a board with one expander output and one direct
    output. *)
Definition board : init_args :=
  args [mcp1; unnamed] [expander_relay "R1" "mcp1"; direct_relay "R2"].

(** A board whose only output names an expander that is not configured. *)
Definition orphan (discovery : bool) : init_args :=
  {| topic_prefix := "home1"; relay_pins := [expander_relay "R1" "mcp9"];
     input_pins := []; ha_discovery := discovery;
     ha_discovery_prefix := "homeassistant"; mcp23017 := Some [mcp1];
     oled := false; web := true |}.

(** A board with two outputs of the same id, one on the expander and one
    direct. *)
Definition twice : init_args :=
  args [mcp1] [expander_relay "R1" "mcp1"; direct_relay "R1"].

(** A board whose output id has a "/set" inside. *)
Definition slashed : init_args := args [] [direct_relay "a/setb"].

(** The action mapping [{"single": {"action": "output", "pin": "R1"}}]. *)
Definition single_toggles_R1 : action_map :=
  {[ "single" := ({[ "action" := VStr "output"; "pin" := VStr "R1" ]} : cfg) ]}.

Definition manager_of (a : init_args) : Manager :=
  match construct (H := externals) a with
  | (_, inr m) => m
  | (_, inl _) => fresh a
  end.

(** The action mapping [{"single": {"action": "output", "pin": "R2"}}]. *)
Definition single_toggles_R2 : action_map :=
  {[ "single" := ({[ "action" := VStr "output"; "pin" := VStr "R2" ]} : cfg) ]}.

Definition input (pin : string) (actions : action_map) : input_cfg :=
  {| in_fields := {[ "pin" := VStr pin ]}; in_actions := Some actions |}.

(** The board with a display and two inputs: a single click on the first
    is meant for R1, one on the last for R2. *)
Definition panel : init_args :=
  {| topic_prefix := "home1";
     relay_pins := [expander_relay "R1" "mcp1"; direct_relay "R2"];
     input_pins := [input "P9_1" single_toggles_R1;
                    input "P9_2" single_toggles_R2];
     ha_discovery := true; ha_discovery_prefix := "homeassistant";
     mcp23017 := Some [mcp1; unnamed]; oled := true; web := false |}.

(** A board whose output id has a "/" inside, but none of the patterns
    [receive_message] deletes. *)
Definition nested : init_args := args [] [direct_relay "a/b"].

(** A board whose output id is the integer 7. *)
Definition numbered : init_args :=
  args [] [{[ "id" := VInt 7; "kind" := VStr "gpio"; "pin" := VStr "P8_7" ]}].

(** A board whose second expander has neither an id nor a name for it. *)
Definition faulty : init_args :=
  args [mcp1; {[ "address" := VInt 34 ]}] [direct_relay "R2"].

(** The two devices of [board] and [panel]. *)
Definition R1 : OutputDevice :=
  {| dev_class := MCPRelay {| mcp_address := VInt 32 |} (VStr "mcp1");
     dev_pin := VInt 3; dev_id := VStr "R1"; dev_ha_type := VStr "light";
     dev_callback := VStr "mcp1" |}.

Definition R2 : OutputDevice :=
  {| dev_class := GpioRelay; dev_pin := VStr "P8_7"; dev_id := VStr "R2";
     dev_ha_type := VStr "switch"; dev_callback := VStr "gpio" |}.
End Sample.

(** ** Vocabulary of the properties *)

(** An id that is a single topic level: it has no "/". *)
Definition no_slash (s : string) : Prop := count_char "/" s = 0.

(** [msg[key]] on a payload that is a dictionary *)
Fixpoint assoc (key : string) (kv : list (string * json)) : option json :=
  match kv with
  | [] => None
  | (k, v) :: kv' => if decide (key = k) then Some v else assoc key kv'
  end.

Definition field (key : string) (msg : json) : option json :=
  match msg with
  | JDict kv => assoc key kv
  | _ => None
  end.

(** The keys of a payload that is a dictionary. *)
Definition fields (msg : json) : list string :=
  match msg with
  | JDict kv => map fst kv
  | _ => []
  end.

(** The device registered under [relay_id] in the output group [group]. *)
Definition registered (m : Manager) (group relay_id : pyval)
  : option OutputDevice :=
  match dict_get (_grouped_outputs m) group with
  | Some devices => dict_get devices relay_id
  | None => None
  end.

(** [emits I P c]: started in a state satisfying [I], the computation [c]
    emits only events satisfying [P], whether it returns or raises, and
    when it returns [I] holds again. *)
Definition emits {A} (I : Manager → Prop) (P : event → Prop) (c : M A) : Prop :=
  ∀ m t r, I m → c m = (t, r) →
    Forall P t ∧ ∀ a m', r = inr (a, m') → I m'.

(** [returns c m]: started in [m], the computation [c] returns. *)
Definition returns {A} (c : M A) (m : Manager) : Prop :=
  ∃ t x m', c m = (t, inr (x, m')).

Section vocabulary.
Context `{Externals}.

(** The id an expander goes by: its configured id, and its bus address
    when it has no name. *)
Definition expander_id (mcp : cfg) : option pyval :=
  match mcp !! ID with
  | Some named => if truthy named then Some named else mcp !! ADDRESS
  | None => None
  end.

(** The settle time of an expander. *)
Definition settle_time (mcp : cfg) : pyval :=
  default (VInt 0) (mcp !! INIT_SLEEP).

(** What registering one expander shows: the handle is acquired at the
    bus address, then the Manager sleeps for the settle time. *)
Definition expander_events (mcp : cfg) : list event :=
  match expander_id mcp, mcp !! ADDRESS, settle_time mcp with
  | Some id, Some address, VInt z =>
      [NewMCP23017 address;
       Log DEBUG ("Sleeping for " +:+ str (VInt z) +:+ "s while MCP "
                    +:+ str id +:+ " is initializing.");
       Sleep z]
  | _, _, _ => []
  end.

(** The group an output belongs to by its configured kind: the group of
    its expander for the expander kind, the direct group for the direct
    kind. *)
Definition configured_group (gpio : cfg) : option pyval :=
  match gpio !! KIND with
  | Some kind =>
      if decide (kind = VStr MCP)
      then Some (default (VStr "") (gpio !! MCP_ID))
      else if decide (kind = VStr GPIO) then Some (VStr GPIO) else None
  | None => None
  end.

(** The configured output ids, in order. *)
Definition configured_ids (pins : list cfg) : list pyval :=
  omap (λ gpio : cfg, gpio !! ID) pins.

Definition is_expander_event (ev : event) : Prop :=
  match ev with
  | NewMCP23017 _ | Sleep _ => True
  | _ => False
  end.

Definition is_new_relay (ev : event) : Prop :=
  match ev with
  | NewRelay _ => True
  | _ => False
  end.

#[global] Instance is_expander_event_dec ev : Decision (is_expander_event ev).
Proof. destruct ev; apply _. Defined.

#[global] Instance is_new_relay_dec ev : Decision (is_new_relay ev).
Proof. destruct ev; apply _. Defined.

(** An event that, if it is a publish, is the autodiscovery descriptor of
    some output under the topic prefix [tp]. *)
Definition publishes_discovery_only (tp : string) (ev : event) : Prop :=
  match ev with
  | SendMessage topic payload =>
      ∃ relay prefix ha_type,
        topic = prefix +:+ "/" +:+ str ha_type +:+ "/" +:+ tp +:+ "/"
                  +:+ str ha_type +:+ "/config"
        ∧ payload = ha_availibilty_message tp relay
  | _ => True
  end.

(** The events of the phases behind the expander phase. *)
Definition after_expanders (tp : string) (ev : event) : Prop :=
  publishes_discovery_only tp ev ∧ ¬ is_expander_event ev.

(** The events of the phases behind the output comprehension. *)
Definition after_outputs (tp : string) (ev : event) : Prop :=
  after_expanders tp ev ∧ ¬ is_new_relay ev.

(** A Manager whose topic prefix, expanders, groups and output mapping
    are the given ones. *)
Definition settled (tp : string) (expanders : odict MCP23017)
    (groups : odict (odict OutputDevice))
    (outputs : odict (option OutputDevice)) (m : Manager) : Prop :=
  _topic_prefix m = tp ∧ _mcp m = expanders
  ∧ _grouped_outputs m = groups ∧ output m = outputs.

(** An expander configuration that has what the loop reads: an id or an
    address to go by, an address, and a settle time that [time.sleep]
    takes. *)
Definition expander_ok (mcp : cfg) : Prop :=
  is_Some (expander_id mcp) ∧ is_Some (mcp !! ADDRESS)
  ∧ ∃ z, settle_time mcp = VInt z ∧ (0 ≤ z)%Z.

(** A value [int] accepts. *)
Definition int_ok (v : pyval) : Prop :=
  match v with
  | VInt _ => True
  | VStr s => is_Some (int_of_str s)
  | VNone => False
  end.

(** An output configuration that has what [configure_relay] reads, is of
    one of the two kinds and, for the expander kind, names an expander of
    the list. *)
Definition output_ok (expanders : list cfg) (gpio : cfg) : Prop :=
  is_Some (gpio !! ID)
  ∧ match gpio !! KIND with
    | Some kind =>
        if decide (kind = VStr MCP)
        then (∃ mcp, mcp ∈ expanders
                     ∧ expander_id mcp
                       = Some (default (VStr "") (gpio !! MCP_ID)))
             ∧ (∃ pin, gpio !! PIN = Some pin ∧ int_ok pin)
             ∧ is_Some (gpio !! HA_TYPE)
        else kind = VStr GPIO ∧ is_Some (gpio !! PIN)
    | None => False
    end.

Definition input_ok (gpio : input_cfg) : Prop :=
  is_Some (in_fields gpio !! PIN).

(** Arguments with which every lookup of [__init__] succeeds. *)
Definition well_formed (a : init_args) : Prop :=
  let expanders := default [] (mcp23017 a) in
  Forall expander_ok expanders
  ∧ Forall (output_ok expanders) (relay_pins a)
  ∧ Forall input_ok (input_pins a).

(** A Manager in which the expanders of the list have their handles, and
    every handle has its output group. *)
Definition ready (expanders : list cfg) (m : Manager) : Prop :=
  (∀ mcp, mcp ∈ expanders →
     ∃ id, expander_id mcp = Some id ∧ is_Some (dict_get (_mcp m) id))
  ∧ (∀ k, is_Some (dict_get (_mcp m) k) →
       is_Some (dict_get (_grouped_outputs m) k)).

(** The integer [int(v)] gives, when it gives one. *)
Definition int_value (v : pyval) : option Z :=
  match v with
  | VInt z => Some z
  | VStr s => int_of_str s
  | VNone => None
  end.

(** [described_by handles gpio d]: [d] is the device the configuration
    [gpio] describes, the registered handles being [handles]: for the
    expander kind an [MCPRelay] on the handle its [mcp_id] names, with the
    pin as an integer and the configured type; for the direct kind a
    [GpioRelay] on the pin as it is written. *)
Definition described_by (handles : odict MCP23017) (gpio : cfg)
    (d : OutputDevice) : Prop :=
  ∃ relay_id kind,
    gpio !! ID = Some relay_id
    ∧ gpio !! KIND = Some kind
    ∧ if decide (kind = VStr MCP)
      then ∃ mcp pin z ha_type,
             dict_get handles (default (VStr "") (gpio !! MCP_ID)) = Some mcp
             ∧ gpio !! PIN = Some pin
             ∧ int_value pin = Some z
             ∧ gpio !! HA_TYPE = Some ha_type
             ∧ d = {| dev_class :=
                        MCPRelay mcp (default (VStr "") (gpio !! MCP_ID));
                      dev_pin := VInt z; dev_id := relay_id;
                      dev_ha_type := ha_type;
                      dev_callback := default (VStr "") (gpio !! MCP_ID) |}
      else kind = VStr GPIO
           ∧ ∃ pin,
               gpio !! PIN = Some pin
               ∧ d = {| dev_class := GpioRelay; dev_pin := pin;
                        dev_id := relay_id;
                        dev_ha_type := GpioRelay_ha_type;
                        dev_callback := VStr GPIO |}.

(** What the output comprehension shows: a device is constructed, or the
    error of a missing expander is logged. *)
Definition comprehension_event (ev : event) : Prop :=
  (∃ d, ev = NewRelay d) ∨ ev = Log ERROR "No such MCP configured!".

(** The topic of the autodiscovery descriptor. *)
Definition discovery_topic (prefix tp : string) (ha_type : pyval) : string :=
  prefix +:+ "/" +:+ str ha_type +:+ "/" +:+ tp +:+ "/" +:+ str ha_type
    +:+ "/config".

(** What one turn of the loop over the outputs shows for the device [d]. *)
Definition announce_events (discovery : bool) (prefix tp : string)
    (d : OutputDevice) : list event :=
  (if discovery
   then [Log DEBUG "Sending HA discovery.";
         SendMessage (discovery_topic prefix tp (dev_ha_type d))
           (ha_availibilty_message tp (dev_id d))]
   else [])
  ++ [CallLater 500 d send_state].

(** What the host data block shows. *)
Definition host_events (a : init_args) : list event :=
  if oled a || web a
  then NewHostData :: map CreateTask host_stats
         ++ [Log DEBUG "Gathering host data enabled."]
  else [].

(** What the display block shows. *)
Definition oled_events (a : init_args) (m : Manager) : list event :=
  if oled a then [NewOled (dict_keys (_grouped_outputs m))] else [].
End vocabulary.

(** The devices of the output mapping, in the order of the mapping. *)
Definition output_devices (m : Manager) : list OutputDevice :=
  omap (λ out : option OutputDevice, out) (dict_values (output m)).

(** Projections of a trace: the messages published, the calls scheduled,
    the tasks started, the buttons and displays constructed, the device
    and display operations called. *)
Definition published (ev : event) : option (string * json) :=
  match ev with
  | SendMessage topic payload => Some (topic, payload)
  | _ => None
  end.

Definition scheduled (ev : event) : option (Z * OutputDevice * device_op) :=
  match ev with
  | CallLater delay_ms d op => Some (delay_ms, d, op)
  | _ => None
  end.

Definition started (ev : event) : option string :=
  match ev with
  | CreateTask f => Some f
  | _ => None
  end.

Definition button_made (ev : event) : option (pyval * input_cfg) :=
  match ev with
  | NewButton pin rest_pin => Some (pin, rest_pin)
  | _ => None
  end.

Definition oled_made (ev : event) : option (list pyval) :=
  match ev with
  | NewOled groups => Some groups
  | _ => None
  end.

Definition operated (ev : event) : option event :=
  match ev with
  | Invoke _ _ | OledUpdate _ => Some ev
  | _ => None
  end.

(** The relay classes are not part of the Manager's source.  A device
    model says, for a method of a device, what the call does (the events
    it causes, such as the publish of the relay's state) and whether it
    raises. *)
Definition device_model : Type :=
  OutputDevice → device_op → list event * option exn.

(** A call of the Manager with the device calls carried out: behind each
    [Invoke] come the events of the device's method, and when that method
    raises, the exception ends the call there, as no statement of the
    Manager handles it. *)
Fixpoint with_devices (dev : device_model) (t : list event) (e : option exn)
  : list event * option exn :=
  match t with
  | [] => ([], e)
  | Invoke d op :: t' =>
      match dev d op with
      | (td, Some raised) => (Invoke d op :: td, Some raised)
      | (td, None) =>
          let '(t'', e') := with_devices dev t' e in
          (Invoke d op :: td ++ t'', e')
      end
  | ev :: t' =>
      let '(t'', e') := with_devices dev t' e in (ev :: t'', e')
  end.

(** The last character of a string. *)
Fixpoint last_char (s : string) : option ascii :=
  match s with
  | EmptyString => None
  | String c EmptyString => Some c
  | String _ s' => last_char s'
  end.

(** ** Facts about [str.replace] *)

Section replace_facts.
Implicit Types (s old new tail : string) (a b c : ascii).

Lemma str_app_nil_l s : "" +:+ s = s.
Proof. reflexivity. Qed.

Lemma str_app_cons a s1 s2 : String a s1 +:+ s2 = String a (s1 +:+ s2).
Proof. reflexivity. Qed.

Lemma str_app_assoc s1 s2 s3 : (s1 +:+ s2) +:+ s3 = s1 +:+ (s2 +:+ s3).
Proof.
  induction s1 as [|a s1 IH]; [done |].
  by rewrite !str_app_cons IH.
Qed.

Lemma count_char_app c s1 s2 :
  count_char c (s1 +:+ s2) = count_char c s1 + count_char c s2.
Proof.
  induction s1 as [|a s1 IH]; [done |].
  rewrite str_app_cons /= IH. lia.
Qed.

Lemma str_prefix_app old s : String.prefix old (old +:+ s) = true.
Proof.
  induction old as [|a old IH]; [by destruct s |].
  rewrite str_app_cons /=. destruct (ascii_dec a a); [exact IH | done].
Qed.

(** Skipping over the characters of a replaced occurrence. *)
Lemma replace_from_skip old new s1 s2 :
  replace_from old new (String.length s1) (s1 +:+ s2)
  = replace_from old new 0 s2.
Proof.
  induction s1 as [|a s1 IH]; [by destruct s2 |].
  rewrite str_app_cons /=. exact IH.
Qed.

(** An occurrence at the front is replaced, and the scan resumes right
    behind it. *)
Lemma replace_from_occurrence a old new s :
  replace_from (String a old) new 0 (String a old +:+ s)
  = new +:+ replace_from (String a old) new 0 s.
Proof.
  rewrite str_app_cons. cbn [replace_from].
  rewrite -str_app_cons str_prefix_app. f_equal.
  cbn [String.length].
  replace (S (String.length old) - 1) with (String.length old) by lia.
  apply replace_from_skip.
Qed.

(** A text without an occurrence of [old] is left as it is. *)
Lemma replace_from_absent old new : ∀ s,
  occurs old s = false → replace_from old new 0 s = s.
Proof.
  induction s as [|a s IH]; [done |].
  cbn [occurs replace_from]. intros [-> Hs]%orb_false_elim.
  f_equal. by apply IH.
Qed.

(** An occurrence of [s1 +:+ s2] ends with an occurrence of [s2]. *)
Lemma prefix_occurs s2 : ∀ s1 s,
  String.prefix (s1 +:+ s2) s = true → occurs s2 s = true.
Proof.
  induction s1 as [|a s1 IH]; intros s.
  - rewrite str_app_nil_l. destruct s; cbn [occurs]; by intros ->.
  - rewrite str_app_cons. destruct s as [|b s]; [done |].
    cbn [String.prefix occurs]. destruct (ascii_dec a b); [|done].
    intros Hp%IH. rewrite Hp. apply orb_true_r.
Qed.

Lemma occurs_app_false s1 s2 : ∀ s,
  occurs s2 s = false → occurs (s1 +:+ s2) s = false.
Proof.
  induction s as [|a s IH].
  - cbn [occurs]. intros Hs. rewrite orb_false_r in Hs |- *.
    destruct (String.prefix (s1 +:+ s2) "") eqn:Hp; [|done].
    apply prefix_occurs in Hp. cbn [occurs] in Hp.
    by rewrite orb_false_r Hs in Hp.
  - intros Hs. cbn [occurs].
    destruct (String.prefix (s1 +:+ s2) (String a s)) eqn:Hp.
    { apply prefix_occurs in Hp. congruence. }
    cbn [occurs] in Hs. apply orb_false_elim in Hs as [_ Hs]. by apply IH.
Qed.

(** Where the text starts with another character than [old], there is no
    occurrence at this position. *)
Lemma replace_from_other a b old new s :
  a ≠ b →
  replace_from (String a old) new 0 (String b s)
  = String b (replace_from (String a old) new 0 s).
Proof.
  intros Hne. cbn [replace_from String.prefix].
  by destruct (ascii_dec a b).
Qed.

(** Scanning for a pattern that starts with [c] copies a text without
    [c] and goes on behind it. *)
Lemma replace_from_copy c old new : ∀ s tail,
  count_char c s = 0 →
  replace_from (String c old) new 0 (s +:+ tail)
  = s +:+ replace_from (String c old) new 0 tail.
Proof.
  induction s as [|a s IH]; intros tail Hc; [done |].
  simpl in Hc. destruct (Ascii.eqb_spec c a) as [->|Hne]; [lia |].
  rewrite !str_app_cons replace_from_other //. by rewrite IH.
Qed.

(** The same for the search. *)
Lemma occurs_copy c old : ∀ s tail,
  count_char c s = 0 →
  occurs (String c old) (s +:+ tail) = occurs (String c old) tail.
Proof.
  induction s as [|a s IH]; intros tail Hc; [done |].
  simpl in Hc. destruct (Ascii.eqb_spec c a) as [->|Hne]; [lia |].
  rewrite str_app_cons. cbn [occurs String.prefix].
  destruct (ascii_dec c a); [done |]. by rewrite IH.
Qed.

Lemma replace_nonempty a old new s :
  replace s (String a old) new = replace_from (String a old) new 0 s.
Proof. reflexivity. Qed.

Lemma replace_occurrence old new s :
  old ≠ "" → replace (old +:+ s) old new = new +:+ replace s old new.
Proof.
  destruct old as [|a old]; [done | intros _].
  rewrite !replace_nonempty. apply replace_from_occurrence.
Qed.

Lemma replace_absent old new s :
  old ≠ "" → occurs old s = false → replace s old new = s.
Proof.
  destruct old as [|a old]; [done | intros _ Hs].
  rewrite replace_nonempty. by apply replace_from_absent.
Qed.

Lemma str_app_nil_r s : s +:+ "" = s.
Proof.
  induction s as [|a s IH]; [done |]. by rewrite str_app_cons IH.
Qed.

Lemma str_app_not_nil s1 s2 : s2 ≠ "" → s1 +:+ s2 ≠ "".
Proof. destruct s1; [done |]. by rewrite str_app_cons. Qed.
End replace_facts.

(** ** The output id extracted from a topic *)

Section extraction.
Implicit Types (prefix id tail : string).

(** Behind the leading pattern, an id of one topic level is copied and the
    two deletions see what follows it. *)
Lemma extracted_relay_tail prefix id tail :
  no_slash id →
  occurs "/relay/" tail = false →
  replace tail "/set" "" = "" →
  extracted_relay prefix (prefix +:+ "/relay/" +:+ id +:+ tail) = id.
Proof.
  intros Hid Hrelay Hset. unfold extracted_relay.
  change (prefix +:+ "/" +:+ RELAY +:+ "/") with (prefix +:+ "/relay/").
  rewrite -(str_app_assoc prefix "/relay/").
  rewrite replace_occurrence; [by apply str_app_not_nil |].
  rewrite str_app_nil_l (replace_absent (prefix +:+ "/relay/")).
  - by apply str_app_not_nil.
  - apply occurs_app_false. by rewrite occurs_copy.
  - rewrite replace_nonempty replace_from_copy // -replace_nonempty Hset.
    apply str_app_nil_r.
Qed.

Lemma extracted_relay_command prefix id :
  no_slash id →
  extracted_relay prefix (prefix +:+ "/relay/" +:+ id +:+ "/set") = id.
Proof. intros Hid. by apply extracted_relay_tail. Qed.

Lemma extracted_relay_set_twice prefix id :
  no_slash id →
  extracted_relay prefix (prefix +:+ "/relay/" +:+ id +:+ "/set/set") = id.
Proof. intros Hid. by apply extracted_relay_tail. Qed.

Lemma extracted_relay_pattern_twice prefix id :
  no_slash id →
  extracted_relay prefix
    (prefix +:+ "/relay/" +:+ prefix +:+ "/relay/" +:+ id +:+ "/set") = id.
Proof.
  intros Hid. unfold extracted_relay.
  change (prefix +:+ "/" +:+ RELAY +:+ "/") with (prefix +:+ "/relay/").
  rewrite -(str_app_assoc prefix "/relay/").
  rewrite replace_occurrence; [by apply str_app_not_nil |].
  rewrite str_app_nil_l. by apply extracted_relay_command.
Qed.
End extraction.

(** ** Inbound command routing, input event routing, autodiscovery *)

Section methods.
Context `{Externals}.
Implicit Types (m : Manager) (d : OutputDevice).

(** What [receive_message] does once the extracted id resolves. *)
Lemma receive_message_found m topic message d :
  dict_get (output m) (VStr (extracted_relay (_topic_prefix m) topic))
    = Some (Some d) →
  call (receive_message topic message) m
  = (if String.eqb message ON then [Invoke d turn_on]
     else if String.eqb message OFF then [Invoke d turn_off]
     else [], None).
Proof.
  intros Hd. rewrite /call /receive_message /bind /self /= Hd.
  destruct (String.eqb message ON); [done |].
  by destruct (String.eqb message OFF).
Qed.

(** C5.  When the id extracted from the topic is not a key of the output
    mapping, [receive_message] calls no device and publishes nothing: its
    trace is empty and it returns normally. *)
Theorem receive_message_unknown_id m topic message :
  dict_get (output m) (VStr (extracted_relay (_topic_prefix m) topic)) = None →
  call (receive_message topic message) m = ([], None).
Proof.
  intros Hnone. by rewrite /call /receive_message /bind /self /= Hnone.
Qed.

(** C10.  The id is recovered by deleting every occurrence of the two
    patterns: a topic with "/set" twice, or with the prefix pattern twice,
    yields the same id as the command topic, although it is not of the
    shape [{topic-prefix}/relay/<id>/set] for any single-level id, and the
    command is routed to the device of that id. *)
Theorem receive_message_deletes_every_occurrence m R1 d :
  no_slash R1 →
  dict_get (output m) (VStr R1) = Some (Some d) →
  let prefix := _topic_prefix m in
  let topic := prefix +:+ "/relay/" +:+ R1 +:+ "/set/set" in
  extracted_relay prefix topic = R1
  ∧ extracted_relay prefix
      (prefix +:+ "/relay/" +:+ prefix +:+ "/relay/" +:+ R1 +:+ "/set") = R1
  ∧ (∀ id, no_slash id → topic ≠ prefix +:+ "/relay/" +:+ id +:+ "/set")
  ∧ call (receive_message topic ON) m = ([Invoke d turn_on], None)
  ∧ call (receive_message topic OFF) m = ([Invoke d turn_off], None).
Proof.
  intros Hid Hd prefix topic.
  assert (extracted_relay prefix topic = R1) as Hex
    by by apply extracted_relay_set_twice.
  split_and!; [done | by apply extracted_relay_pattern_twice | | |].
  - intros id Hno Heq. unfold topic in Heq.
    apply (inj (String.app prefix)), (inj (String.app "/relay/")) in Heq.
    assert (count_char "/" (R1 +:+ "/set/set")
            = count_char "/" (id +:+ "/set")) as Hc by by rewrite Heq.
    rewrite !count_char_app Hid Hno /= in Hc. lia.
  - rewrite (receive_message_found _ _ _ d) //. by rewrite Hex.
  - rewrite (receive_message_found _ _ _ d) //. by rewrite Hex.
Qed.

(** C2.  [press_callback] first publishes the click kind on the input
    topic.  It then toggles a device exactly when the action mapping has,
    for this click kind, an action of kind "output" whose target resolves
    in the output mapping, and that device is the target; in every other
    case (another action kind, no entry, a target that is not found)
    nothing follows the publish. *)
Theorem press_callback_routes m x inpin (actions : action_map) :
  let publish :=
    SendMessage (_topic_prefix m +:+ "/input/" +:+ inpin) (JStr x) in
  (∃ rest e, call (press_callback x inpin actions) m = (publish :: rest, e))
  ∧ (∀ (action : cfg) target d,
       actions !! x = Some action →
       action !! ACTION = Some (VStr OUTPUT) →
       action !! PIN = Some target →
       dict_get (output m) target = Some (Some d) →
       call (press_callback x inpin actions) m
       = ([publish; Invoke d toggle], None))
  ∧ (∀ (action : cfg) target,
       actions !! x = Some action →
       action !! ACTION = Some (VStr OUTPUT) →
       action !! PIN = Some target →
       (∀ d, dict_get (output m) target ≠ Some (Some d)) →
       call (press_callback x inpin actions) m = ([publish], None))
  ∧ (∀ (action : cfg) kind,
       actions !! x = Some action →
       action !! ACTION = Some kind →
       kind ≠ VStr OUTPUT →
       call (press_callback x inpin actions) m = ([publish], None))
  ∧ (actions !! x = None →
     call (press_callback x inpin actions) m = ([publish], None))
  ∧ (∀ t e,
       call (press_callback x inpin actions) m = (t, e) →
       t = [publish]
       ∨ ∃ (action : cfg) target d,
           actions !! x = Some action
           ∧ action !! ACTION = Some (VStr OUTPUT)
           ∧ action !! PIN = Some target
           ∧ dict_get (output m) target = Some (Some d)
           ∧ t = [publish; Invoke d toggle]).
Proof.
  intros publish.
  assert (∀ (action : cfg) v, action !! ACTION = Some v → action ≠ ∅) as Hne.
  { intros action v Hv ->. by rewrite lookup_empty in Hv. }
  split_and!.
  - rewrite /call /press_callback /bind /self /emit /=.
    repeat (case_match; simplify_eq/=); eauto.
  - intros action target d Hx Hkind Hpin Hd.
    rewrite /call /press_callback /bind /self /emit /getitem /= Hx.
    destruct (decide (action = ∅)) as [->|_]; [by rewrite lookup_empty in Hkind |].
    by rewrite Hkind /= Hpin /= Hd.
  - intros action target Hx Hkind Hpin Hd.
    rewrite /call /press_callback /bind /self /emit /getitem /= Hx.
    destruct (decide (action = ∅)) as [->|_]; [by rewrite lookup_empty in Hkind |].
    rewrite Hkind /= Hpin /=.
    destruct (dict_get (output m) target) as [[d|]|] eqn:Hget; try done.
    by destruct (Hd d).
  - intros action kind Hx Hkind Hother.
    rewrite /call /press_callback /bind /self /emit /getitem /= Hx.
    destruct (decide (action = ∅)) as [->|_]; [by rewrite lookup_empty in Hkind |].
    rewrite Hkind /= decide_False //.
  - intros Hx.
    by rewrite /call /press_callback /bind /self /emit /getitem /= Hx.
  - intros t e.
    rewrite /call /press_callback /bind /self /emit /getitem /=.
    destruct (actions !! x) as [action|] eqn:Hx; simpl;
      [|intros [= <- <-]; by left].
    destruct (decide (action = ∅)); simpl; [intros [= <- <-]; by left |].
    destruct (action !! ACTION) as [kind|] eqn:Hkind; simpl;
      [|intros [= <- <-]; by left].
    destruct (decide (kind = VStr OUTPUT)) as [->|]; simpl;
      [|intros [= <- <-]; by left].
    destruct (action !! PIN) as [target|] eqn:Hpin; simpl;
      [|intros [= <- <-]; by left].
    destruct (dict_get (output m) target) as [[d|]|] eqn:Hd; simpl;
      intros [= <- <-]; [right; by exists action, target, d | by left..].
Qed.

(** C7.  [send_ha_autodiscovery] publishes one message, to
    [{prefix}/{ha_type}/{topic-prefix}/{ha_type}/config]; its payload is
    the descriptor with exactly the listed fields; topic and payload are
    determined by the arguments and the topic prefix alone, whatever else
    the Manager holds. *)
Theorem send_ha_autodiscovery_descriptor m relay prefix ha_type :
  let msg := ha_availibilty_message (_topic_prefix m) relay in
  call (send_ha_autodiscovery relay prefix ha_type) m
  = ([SendMessage
        (prefix +:+ "/" +:+ str ha_type +:+ "/" +:+ _topic_prefix m +:+ "/"
           +:+ str ha_type +:+ "/config") msg], None)
  ∧ fields msg
    = ["availability"; "command_topic"; "device"; "name"; "payload_off";
       "payload_on"; "state_topic"; "unique_id"; "value_template"]
  ∧ field "availability" msg
    = Some (JList [JDict [("topic", JStr (_topic_prefix m +:+ "/state"))]])
  ∧ (∃ device,
       field "device" msg = Some device
       ∧ fields device
         = ["identifiers"; "manufacturer"; "model"; "name"; "sw_version"])
  ∧ field "payload_off" msg = Some (JStr "OFF")
  ∧ field "payload_on" msg = Some (JStr "ON")
  ∧ field "command_topic" msg
    = Some (JStr (_topic_prefix m +:+ "/relay/" +:+ str relay +:+ "/set"))
  ∧ field "state_topic" msg
    = Some (JStr (_topic_prefix m +:+ "/relay/" +:+ str relay))
  ∧ field "unique_id" msg
    = Some (JStr (_topic_prefix m +:+ "relay" +:+ str relay))
  ∧ field "name" msg = Some (JStr ("Relay " +:+ str relay))
  ∧ field "value_template" msg = Some (JStr "{{ value_json.state }}")
  ∧ (∀ m', _topic_prefix m' = _topic_prefix m →
       call (send_ha_autodiscovery relay prefix ha_type) m'
       = call (send_ha_autodiscovery relay prefix ha_type) m).
Proof.
  intros msg. split_and!; try done.
  - by eexists.
  - intros m' Hm'.
    by rewrite /call /send_ha_autodiscovery /bind /self /emit /= Hm'.
Qed.

(** C4, as the code has it.  For topic prefix "home1", relay "R1",
    discovery prefix "homeassistant" and type "switch" the published
    payload has [unique_id] "home1relayR1" (prefix, the constant [RELAY],
    id) and [state_topic] "home1/relay/R1". *)
Theorem send_ha_autodiscovery_home1 m :
  _topic_prefix m = "home1" →
  ∃ msg,
    call (send_ha_autodiscovery (VStr "R1") "homeassistant" (VStr "switch")) m
    = ([SendMessage "homeassistant/switch/home1/switch/config" msg], None)
    ∧ field "unique_id" msg = Some (JStr "home1relayR1")
    ∧ field "state_topic" msg = Some (JStr "home1/relay/R1").
Proof.
  intros Hm. eexists.
  rewrite /call /send_ha_autodiscovery /bind /self /emit /= Hm.
  by split_and!.
Qed.
End methods.

(** ** Reasoning about computations in [M] *)

Section monad_facts.
Context {A B : Type}.
Implicit Types (m : Manager) (t : list event).

Lemma bind_inr (c : M A) (k : A → M B) m t (r : B * Manager) :
  bind c k m = (t, inr r) →
  ∃ t1 a m1 t2,
    c m = (t1, inr (a, m1)) ∧ k a m1 = (t2, inr r) ∧ t = t1 ++ t2.
Proof.
  unfold bind. destruct (c m) as [t1 [e|[a m1]]]; [done |].
  destruct (k a m1) as [t2 r2] eqn:Hk. intros [= <- ->].
  by exists t1, a, m1, t2.
Qed.

Lemma emits_bind I P (c : M A) (k : A → M B) :
  emits I P c → (∀ a, emits I P (k a)) → emits I P (bind c k).
Proof.
  intros Hc Hk m t r Hm. unfold bind.
  destruct (c m) as [t1 [e|[a m1]]] eqn:Hrun.
  - intros [= <- <-]. destruct (Hc _ _ _ Hm Hrun) as [Ht _]. by split.
  - destruct (k a m1) as [t2 r2] eqn:Hrun2. intros [= <- <-].
    destruct (Hc _ _ _ Hm Hrun) as [Ht1 Hm1].
    destruct (Hk a _ _ _ (Hm1 _ _ eq_refl) Hrun2) as [Ht2 Hm2].
    split; [by apply Forall_app | done].
Qed.

Lemma emits_ret I P (a : A) : emits I P (ret a).
Proof. intros m t r Hm [= <- <-]. split; [done | by intros ?? [= _ <-]]. Qed.

Lemma emits_raise I P e : emits I P (raise (A := A) e).
Proof. intros m t r Hm [= <- <-]. by split. Qed.
End monad_facts.

Section primitive_facts.
Context `{Externals}.
Implicit Types (m : Manager) (t : list event) (I : Manager → Prop)
  (P : event → Prop).

Lemma emits_emit I P ev : P ev → emits I P (emit ev).
Proof.
  intros Hev m t r Hm [= <- <-].
  split; [by constructor | by intros ?? [= _ <-]].
Qed.

Lemma emits_self I P : emits I P self.
Proof. intros m t r Hm [= <- <-]. split; [done | by intros ?? [= _ <-]]. Qed.

Lemma emits_modify I P f : (∀ m, I m → I (f m)) → emits I P (modify f).
Proof.
  intros Hf m t r Hm [= <- <-].
  split; [done | intros ?? [= _ <-]; by apply Hf].
Qed.

Lemma emits_getitem I P (d : cfg) k : emits I P (getitem d k).
Proof. unfold getitem. destruct (d !! k); [apply emits_ret | apply emits_raise]. Qed.

Lemma emits_dict_getitem {V} I P (d : odict V) k : emits I P (dict_getitem d k).
Proof.
  unfold dict_getitem.
  destruct (dict_get d k); [apply emits_ret | apply emits_raise].
Qed.

Lemma emits_getattr I P out attr : emits I P (getattr out attr).
Proof. destruct out; [apply emits_ret | apply emits_raise]. Qed.

Lemma emits_py_int I P v : emits I P (py_int v).
Proof.
  destruct v as [|z|s]; simpl;
    [apply emits_raise | apply emits_ret |].
  destruct (int_of_str s); [apply emits_ret | apply emits_raise].
Qed.

Lemma emits_sleep I P v : (∀ z, P (Sleep z)) → emits I P (sleep v).
Proof.
  intros HP. destruct v as [|z|s]; simpl; try apply emits_raise.
  destruct (z <? 0)%Z; [apply emits_raise | by apply emits_emit].
Qed.

Lemma emits_for_each {A} I P (f : A → M unit) l :
  (∀ x, emits I P (f x)) → emits I P (for_each f l).
Proof.
  intros Hf. induction l as [|x l IH]; simpl; [apply emits_ret |].
  apply emits_bind; [apply Hf | intros _; apply IH].
Qed.

(** Inversion of the primitives that returned. *)
Lemma ret_inr {A} (a b : A) m t m' :
  ret a m = (t, inr (b, m')) → t = [] ∧ b = a ∧ m' = m.
Proof. by intros [= <- <- <-]. Qed.

Lemma emit_inr ev m t u m' :
  emit ev m = (t, inr (u, m')) → t = [ev] ∧ m' = m.
Proof. by intros [= <- _ <-]. Qed.

Lemma self_inr m t m0 m' :
  self m = (t, inr (m0, m')) → t = [] ∧ m0 = m ∧ m' = m.
Proof. by intros [= <- <- <-]. Qed.

Lemma modify_inr f m t u m' :
  modify f m = (t, inr (u, m')) → t = [] ∧ m' = f m.
Proof. by intros [= <- _ <-]. Qed.

Lemma getitem_inr (d : cfg) k m t v m' :
  getitem d k m = (t, inr (v, m')) → d !! k = Some v ∧ t = [] ∧ m' = m.
Proof. unfold getitem. destruct (d !! k); [by intros [= <- <- <-] | done]. Qed.

Lemma dict_getitem_inr {V} (d : odict V) k m t v m' :
  dict_getitem d k m = (t, inr (v, m')) →
  dict_get d k = Some v ∧ t = [] ∧ m' = m.
Proof.
  unfold dict_getitem. destruct (dict_get d k); [by intros [= <- <- <-] | done].
Qed.

Lemma getattr_inr out attr m t d m' :
  getattr out attr m = (t, inr (d, m')) → out = Some d ∧ t = [] ∧ m' = m.
Proof. destruct out; [by intros [= <- <- <-] | done]. Qed.

Lemma sleep_inr v m t u m' :
  sleep v m = (t, inr (u, m')) →
  ∃ z, v = VInt z ∧ (0 ≤ z)%Z ∧ t = [Sleep z] ∧ m' = m.
Proof.
  destruct v as [|z|s]; simpl; try done.
  destruct (Z.ltb_spec z 0); [done |]. intros [= <- _ <-]. by exists z.
Qed.

Lemma py_int_inr v m t z m' :
  py_int v m = (t, inr (z, m')) → t = [] ∧ m' = m.
Proof.
  destruct v as [|z'|s]; simpl; [done | by intros [= <- _ <-] |].
  destruct (int_of_str s); [by intros [= <- _ <-] | done].
Qed.
End primitive_facts.

(** Inversion of a computation that returned, one primitive at a time. *)
Ltac inv_run :=
  repeat match goal with
  | H : bind _ _ _ = (_, inr _) |- _ =>
      apply bind_inr in H as (? & ? & ? & ? & ? & H & ->)
  | H : ret _ _ = (_, inr _) |- _ => apply ret_inr in H as (-> & ? & ?); subst
  | H : emit _ _ = (_, inr _) |- _ => apply emit_inr in H as (-> & ?); subst
  | H : self _ = (_, inr _) |- _ => apply self_inr in H as (-> & ? & ?); subst
  | H : modify _ _ = (_, inr _) |- _ => apply modify_inr in H as (-> & ?); subst
  | H : getitem _ _ _ = (_, inr _) |- _ =>
      apply getitem_inr in H as (H & -> & ?); subst
  | H : dict_getitem _ _ _ = (_, inr _) |- _ =>
      apply dict_getitem_inr in H as (H & -> & ?); subst
  | H : getattr _ _ _ = (_, inr _) |- _ =>
      apply getattr_inr in H as (? & -> & ?); subst
  | H : sleep _ _ = (_, inr _) |- _ =>
      apply sleep_inr in H as (? & H & ? & -> & ?); subst
  | H : py_int _ _ = (_, inr _) |- _ =>
      apply py_int_inr in H as (-> & ?); subst
  end.

(** Bounding the events of a computation, one primitive at a time. *)
Ltac emits_step :=
  first
    [ apply emits_bind; [|intros ?]
    | apply emits_ret
    | apply emits_raise
    | apply emits_self
    | apply emits_getitem
    | apply emits_dict_getitem
    | apply emits_getattr
    | apply emits_py_int
    | apply emits_emit
    | apply emits_modify
    | apply emits_sleep
    | apply emits_for_each; intros ? ].

(** ** Dictionaries *)

Section dict_facts.
Context {V : Type}.
Implicit Types (d : odict V) (k : pyval) (v : V).

Lemma dict_get_set d k v k' :
  dict_get (dict_set d k v) k'
  = if decide (k' = k) then Some v else dict_get d k'.
Proof.
  induction d as [|[k0 v0] d IH]; simpl.
  - by destruct (decide (k' = k)).
  - destruct (decide (k = k0)) as [->|Hne]; simpl.
    + by destruct (decide (k' = k0)).
    + destruct (decide (k' = k0)) as [->|]; [by rewrite decide_False | done].
Qed.

Lemma dict_get_set_eq d k v : dict_get (dict_set d k v) k = Some v.
Proof. by rewrite dict_get_set decide_True. Qed.

Lemma dict_get_set_ne d k v k' :
  k' ≠ k → dict_get (dict_set d k v) k' = dict_get d k'.
Proof. intros Hne. by rewrite dict_get_set decide_False. Qed.

Lemma dict_get_values d k v : dict_get d k = Some v → v ∈ dict_values d.
Proof.
  induction d as [|[k0 v0] d IH]; simpl; [done |].
  destruct (decide (k = k0)) as [->|Hne].
  - intros [= ->]. apply list_elem_of_here.
  - intros Hd. apply list_elem_of_further. by apply IH.
Qed.

Lemma dict_in_spec k d : dict_in k d = true ↔ is_Some (dict_get d k).
Proof. unfold dict_in. by rewrite bool_decide_eq_true. Qed.
End dict_facts.

(** ** Construction: the expander phase *)

Section expander_phase.
Context `{Externals}.
Implicit Types (m : Manager) (mcp : cfg) (t : list event).

(** One turn of the loop: the handle and an empty group are registered
    under the same id. *)
Lemma register_expander_inr mcp m t u m' :
  register_expander mcp m = (t, inr (u, m')) →
  ∃ id address z,
    expander_id mcp = Some id ∧ mcp !! ADDRESS = Some address
    ∧ settle_time mcp = VInt z ∧ (0 ≤ z)%Z
    ∧ t = expander_events mcp
    ∧ m' = set_grouped_outputs (dict_set (_grouped_outputs m) id [])
             (set_mcp (dict_set (_mcp m) id {| mcp_address := address |}) m).
Proof.
  unfold register_expander. intros Hrun. inv_run.
  match goal with
  | Hn : mcp !! ID = Some ?named,
    Hc : (if truthy ?named then _ else _) _ = (?t0, inr (?id, ?m0)),
    Ha : mcp !! ADDRESS = Some ?address,
    Hs : default _ _ = VInt ?z |- _ =>
      assert (expander_id mcp = Some id ∧ t0 = [] ∧ m0 = m) as (Hid & -> & ->)
        by (unfold expander_id; rewrite Hn; destruct (truthy named);
            inv_run; eauto);
      exists id, address, z;
      rewrite /expander_events /settle_time Hid Ha Hs /=
  end.
  by split_and!.
Qed.

(** The whole loop. *)
Lemma register_each_inr l : ∀ m t u m',
  for_each register_expander l m = (t, inr (u, m')) →
  t = flat_map expander_events l
  ∧ _topic_prefix m' = _topic_prefix m
  ∧ _input_pins m' = _input_pins m
  ∧ output m' = output m
  ∧ (∀ id, is_Some (dict_get (_mcp m) id) → is_Some (dict_get (_mcp m') id))
  ∧ (∀ id, is_Some (dict_get (_grouped_outputs m) id) →
       is_Some (dict_get (_grouped_outputs m') id))
  ∧ (∀ mcp, mcp ∈ l →
       ∃ id address z,
         expander_id mcp = Some id ∧ mcp !! ADDRESS = Some address
         ∧ settle_time mcp = VInt z ∧ (0 ≤ z)%Z
         ∧ is_Some (dict_get (_mcp m') id)
         ∧ is_Some (dict_get (_grouped_outputs m') id))
  ∧ (∀ id h, dict_get (_mcp m') id = Some h →
       dict_get (_mcp m) id = Some h
       ∨ ∃ mcp, mcp ∈ l ∧ expander_id mcp = Some id
                ∧ mcp !! ADDRESS = Some (mcp_address h))
  ∧ (∀ g devices, dict_get (_grouped_outputs m') g = Some devices →
       dict_get (_grouped_outputs m) g = Some devices ∨ devices = []).
Proof.
  induction l as [|mcp l IH]; intros m t u m' Hrun.
  - simpl in Hrun. inv_run. split_and!; try done; [|by left..].
    intros mcp Hin. by apply elem_of_nil in Hin.
  - simpl in Hrun. inv_run.
    match goal with
    | H1 : register_expander _ _ = _, H2 : for_each _ _ _ = _ |- _ =>
        apply register_expander_inr in H1
          as (id & address & z & Hid & Haddr & Hz & Hpos & -> & ->);
        apply IH in H2
          as (-> & Htp & Hin & Hout & Hmono & Hgmono & Hreg & Hmcp & Hgrp)
    end.
    simpl in *. split_and!; try done.
    + intros id' Hsome. apply Hmono. rewrite dict_get_set.
      by destruct (decide (id' = id)).
    + intros id' Hsome. apply Hgmono. rewrite dict_get_set.
      by destruct (decide (id' = id)).
    + intros mcp' [->|Hl]%elem_of_cons; [|by apply Hreg].
      exists id, address, z. split_and!; try done.
      * apply Hmono. by rewrite dict_get_set_eq.
      * apply Hgmono. by rewrite dict_get_set_eq.
    + intros id' h [Hh|(mcp' & Hl & Hid' & Ha')]%Hmcp.
      * rewrite dict_get_set in Hh. destruct (decide (id' = id)) as [->|].
        -- injection Hh as <-. right. exists mcp.
           split_and!; [apply list_elem_of_here | done..].
        -- by left.
      * right. exists mcp'. split_and!; [by apply list_elem_of_further | done..].
    + intros g devices [Hg| ->]%Hgrp; [|by right].
      rewrite dict_get_set in Hg. destruct (decide (g = id)) as [->|].
      * injection Hg as <-. by right.
      * by left.
Qed.

(** The phase as [__init__] runs it, from the fresh Manager: every
    configured expander has its handle and an empty group, every handle
    is the one of a configured expander, and no group has a device. *)
Lemma register_expanders_inr a t u m1 :
  register_expanders a (fresh a) = (t, inr (u, m1)) →
  let expanders := default [] (mcp23017 a) in
  t = flat_map expander_events expanders
  ∧ _topic_prefix m1 = topic_prefix a
  ∧ _input_pins m1 = input_pins a
  ∧ output m1 = []
  ∧ (∀ mcp, mcp ∈ expanders →
       ∃ id address z,
         expander_id mcp = Some id ∧ mcp !! ADDRESS = Some address
         ∧ settle_time mcp = VInt z ∧ (0 ≤ z)%Z
         ∧ is_Some (dict_get (_mcp m1) id)
         ∧ dict_get (_grouped_outputs m1) id = Some [])
  ∧ (∀ id h, dict_get (_mcp m1) id = Some h →
       ∃ mcp, mcp ∈ expanders ∧ expander_id mcp = Some id
              ∧ mcp !! ADDRESS = Some (mcp_address h))
  ∧ (∀ g devices, dict_get (_grouped_outputs m1) g = Some devices →
       devices = []).
Proof.
  unfold register_expanders.
  assert (∀ l, for_each register_expander l (fresh a) = (t, inr (u, m1)) →
    t = flat_map expander_events l
    ∧ _topic_prefix m1 = topic_prefix a
    ∧ _input_pins m1 = input_pins a
    ∧ output m1 = []
    ∧ (∀ mcp, mcp ∈ l →
         ∃ id address z,
           expander_id mcp = Some id ∧ mcp !! ADDRESS = Some address
           ∧ settle_time mcp = VInt z ∧ (0 ≤ z)%Z
           ∧ is_Some (dict_get (_mcp m1) id)
           ∧ dict_get (_grouped_outputs m1) id = Some [])
    ∧ (∀ id h, dict_get (_mcp m1) id = Some h →
         ∃ mcp, mcp ∈ l ∧ expander_id mcp = Some id
                ∧ mcp !! ADDRESS = Some (mcp_address h))
    ∧ (∀ g devices, dict_get (_grouped_outputs m1) g = Some devices →
         devices = [])) as Hloop.
  { intros l (-> & Htp & Hin & Hout & _ & _ & Hreg & Hmcp & Hgrp)%register_each_inr.
    assert (∀ g devices, dict_get (_grouped_outputs m1) g = Some devices →
              devices = []) as Hempty
      by (intros g devices [Hg|Hg]%Hgrp; done).
    split_and!; try done.
    - intros mcp (id & address & z & ? & ? & ? & ? & ? & [devices Hd])%Hreg.
      exists id, address, z. split_and!; try done.
      by rewrite Hd (Hempty _ _ Hd).
    - intros id h [Hh|Hh]%Hmcp; done. }
  destruct (mcp23017 a) as [[|mcp l]|].
  - apply (Hloop []).
  - apply (Hloop (mcp :: l)).
  - apply (Hloop []).
Qed.
End expander_phase.

(** ** Construction: the output phase *)

Section output_phase.
Context `{Externals}.
Implicit Types (m : Manager) (gpio : cfg) (t : list event)
  (d : OutputDevice) (g k : pyval).

Lemma registered_insert m g devices relay_id d g' k :
  dict_get (_grouped_outputs m) g = Some devices →
  registered
    (set_grouped_outputs
       (dict_set (_grouped_outputs m) g (dict_set devices relay_id d)) m) g' k
  = if decide (g' = g ∧ k = relay_id) then Some d else registered m g' k.
Proof.
  intros Hg. rewrite /registered /= dict_get_set.
  destruct (decide (g' = g)) as [->|Hne].
  - rewrite dict_get_set Hg.
    destruct (decide (k = relay_id)) as [->|Hk].
    + by rewrite decide_True.
    + rewrite decide_False //. by intros [_ ?].
  - rewrite decide_False //. by intros [? _].
Qed.

Lemma registered_new_group m g g' k :
  dict_get (_grouped_outputs m) g = None →
  registered (set_grouped_outputs (dict_set (_grouped_outputs m) g []) m) g' k
  = registered m g' k.
Proof.
  intros Hg. rewrite /registered /= dict_get_set.
  destruct (decide (g' = g)) as [->|Hne]; [by rewrite Hg | done].
Qed.

(** What one call of [configure_relay] that returned has done: nothing
    when it returned [None]; otherwise it has constructed the device of
    this output and registered it in the group of its kind, and in no
    other place. *)
Lemma configure_relay_inr gpio m t v m' :
  configure_relay gpio m = (t, inr (v, m')) →
  _topic_prefix m' = _topic_prefix m
  ∧ _input_pins m' = _input_pins m
  ∧ _mcp m' = _mcp m
  ∧ output m' = output m
  ∧ match v with
    | None => ∀ g k, registered m' g k = registered m g k
    | Some d =>
        ∃ relay_id group,
          gpio !! ID = Some relay_id
          ∧ configured_group gpio = Some group
          ∧ dev_id d = relay_id
          ∧ dev_callback d = group
          ∧ ∀ g k, registered m' g k
                   = if decide (g = group ∧ k = relay_id) then Some d
                     else registered m g k
    end.
Proof.
  unfold configure_relay. intros Hrun. inv_run.
  match goal with Hk : gpio !! KIND = Some ?kind |- _ =>
    rename Hk into Hkind; rename kind into kd end.
  destruct (decide (kd = VStr MCP)) as [->|Hmcp].
  - inv_run.
    destruct (dict_get (_mcp m) (default (VStr "") (gpio !! MCP_ID)))
      as [mcp|] eqn:Hh; inv_run; [|by split_and!].
    split_and!; try done.
    eexists _, _.
    split_and!;
      [eassumption | by rewrite /configured_group Hkind decide_True
      | reflexivity | reflexivity | intros g k; by apply registered_insert].
  - destruct (decide (kd = VStr GPIO)) as [->|Hgpio]; inv_run; [|by split_and!].
    match goal with
    | Hc : (if dict_in _ _ then _ else _) _ = (_, inr (_, ?m0)) |- _ =>
        assert (_topic_prefix m0 = _topic_prefix m ∧ _input_pins m0 = _input_pins m
                ∧ _mcp m0 = _mcp m ∧ output m0 = output m
                ∧ ∀ g k, registered m0 g k = registered m g k)
          as (Htp & Hin & Hm & Hout & Hreg)
    end.
    { destruct (dict_in (VStr GPIO) (_grouped_outputs m)) eqn:Hi; inv_run;
        [by split_and! |].
      split_and!; try done. intros g k. apply registered_new_group.
      destruct (dict_get (_grouped_outputs m) (VStr GPIO)) eqn:Hg; [|done].
      assert (dict_in (VStr GPIO) (_grouped_outputs m) = true) as Hc
        by by apply dict_in_spec. congruence. }
    split_and!; try done.
    eexists _, _.
    split_and!;
      [eassumption
      | by rewrite /configured_group Hkind decide_False // decide_True
      | reflexivity | reflexivity
      | intros g k; by rewrite registered_insert // Hreg].
Qed.

Lemma configured_ids_cons gpio pins relay_id :
  gpio !! ID = Some relay_id →
  configured_ids (gpio :: pins) = relay_id :: configured_ids pins.
Proof. intros Hid. by rewrite /configured_ids /= Hid. Qed.

(** The comprehension keeps every device under its own id, in the output
    mapping and in the groups, and gives every configured id a key. *)
Lemma output_comprehension_ids pins : ∀ acc m t outputs m',
  output_comprehension pins acc m = (t, inr (outputs, m')) →
  _topic_prefix m' = _topic_prefix m
  ∧ _input_pins m' = _input_pins m
  ∧ _mcp m' = _mcp m
  ∧ output m' = output m
  ∧ ((∀ k d, dict_get acc k = Some (Some d) → dev_id d = k) →
     ∀ k d, dict_get outputs k = Some (Some d) → dev_id d = k)
  ∧ ((∀ g k d, registered m g k = Some d → dev_id d = k) →
     ∀ g k d, registered m' g k = Some d → dev_id d = k)
  ∧ (∀ gpio, gpio ∈ pins →
       ∃ relay_id, gpio !! ID = Some relay_id
                   ∧ is_Some (dict_get outputs relay_id))
  ∧ (∀ k, is_Some (dict_get acc k) → is_Some (dict_get outputs k)).
Proof.
  induction pins as [|gpio pins IH]; intros acc m t outputs m' Hrun;
    simpl in Hrun; inv_run.
  { split_and!; try done. intros gpio Hin. by apply elem_of_nil in Hin. }
  match goal with
  | Hid : gpio !! ID = Some ?key,
    H1 : configure_relay _ _ = (_, inr (?v, ?m1)),
    H2 : output_comprehension _ _ _ = _ |- _ =>
      apply configure_relay_inr in H1 as (Htp1 & Hin1 & Hm1 & Hout1 & Hv);
      apply IH in H2 as (Htp & Hin & Hm & Hout & Hacc & Hreg & Hkeys & Hmono);
      rename Hid into Hkey
  end.
  split_and!; try congruence.
  - intros Hold. apply Hacc. intros k d. rewrite dict_get_set.
    destruct (decide (k = _)) as [->|]; [|by apply Hold].
    intros [= ->]. destruct Hv as (relay_id & group & ? & _ & ? & _).
    congruence.
  - intros Hold. apply Hreg. intros g k d.
    match goal with |- registered ?m1 _ _ = _ → _ => destruct (registered m1 g k) eqn:Hr end;
      [|done].
    intros [= ->]. revert Hr.
    match type of Hv with
    | match ?v with _ => _ end => destruct v as [d0|]
    end.
    + destruct Hv as (relay_id & group & ? & _ & ? & _ & Hset). rewrite Hset.
      destruct (decide (g = group ∧ k = relay_id)) as [[-> ->]|_];
        [by intros [= <-] | apply Hold].
    + rewrite Hv. apply Hold.
  - intros gpio' [->|Hl]%elem_of_cons; [|by apply Hkeys].
    eexists. split; [done |]. apply Hmono. by rewrite dict_get_set_eq.
  - intros k Hk. apply Hmono. rewrite dict_get_set.
    by destruct (decide (k = _)).
Qed.

(** When the configured ids are pairwise distinct and none of them is
    registered yet, the comprehension registers every output it
    constructs in the group of its kind and in no other group. *)
Lemma output_comprehension_groups pins : ∀ acc m t outputs m',
  output_comprehension pins acc m = (t, inr (outputs, m')) →
  NoDup (configured_ids pins) →
  (∀ g k, is_Some (registered m g k) → k ∉ configured_ids pins) →
  (∀ k, k ∉ configured_ids pins → dict_get outputs k = dict_get acc k)
  ∧ (∀ g k, k ∉ configured_ids pins → registered m' g k = registered m g k)
  ∧ (∀ gpio, gpio ∈ pins →
       ∃ relay_id,
         gpio !! ID = Some relay_id
         ∧ match dict_get outputs relay_id with
           | Some (Some d) =>
               ∃ group,
                 configured_group gpio = Some group
                 ∧ dev_callback d = group
                 ∧ registered m' group relay_id = Some d
                 ∧ ∀ g, is_Some (registered m' g relay_id) → g = group
           | Some None => ∀ g, registered m' g relay_id = None
           | None => False
           end).
Proof.
  induction pins as [|gpio pins IH]; intros acc m t outputs m' Hrun Hnd Hfresh;
    simpl in Hrun; inv_run.
  { split_and!; try done. intros gpio Hin. by apply elem_of_nil in Hin. }
  match goal with
  | Hid : gpio !! ID = Some ?key,
    H1 : configure_relay _ _ = (_, inr (?v, ?m1)),
    H2 : output_comprehension _ _ _ = _ |- _ =>
      apply configure_relay_inr in H1 as (_ & _ & _ & _ & Hv);
      rename Hid into Hkey; rename H2 into Hrest; rename key into key0;
      rename v into v0; rename m1 into m1'
  end.
  rewrite (configured_ids_cons _ _ _ Hkey) in Hnd Hfresh |- *.
  apply NoDup_cons in Hnd as [Hnew Hnd].
  assert (∀ g k, k ≠ key0 → registered m1' g k = registered m g k) as Hother.
  { intros g k Hk. destruct v0 as [d|]; [|by apply Hv].
    destruct Hv as (relay_id & group & ? & _ & _ & _ & Hset). simplify_eq.
    rewrite Hset decide_False //. by intros [_ ?]. }
  apply IH in Hrest as (Hacc & Hreg & Hpins); [|done|]; last first.
  { intros g k Hsome. destruct (decide (k = key0)) as [->|Hk]; [done |].
    rewrite Hother // in Hsome. apply Hfresh in Hsome.
    by apply not_elem_of_cons in Hsome as [_ ?]. }
  split_and!.
  - intros k [Hk Hl]%not_elem_of_cons. by rewrite Hacc // dict_get_set_ne.
  - intros g k [Hk Hl]%not_elem_of_cons. by rewrite Hreg // Hother.
  - intros gpio' [->|Hl]%elem_of_cons; [|by apply Hpins].
    exists key0. split; [done |]. rewrite Hacc // dict_get_set_eq.
    assert (∀ g, is_Some (registered m g key0) → False) as Hnone.
    { intros g Hsome%Hfresh. apply Hsome, list_elem_of_here. }
    destruct v0 as [d|].
    + destruct Hv as (relay_id & group & ? & Hgroup & _ & Hcb & Hset).
      simplify_eq. exists (dev_callback d). split_and!; try done.
      * by rewrite Hreg // Hset decide_True.
      * intros g. rewrite Hreg // Hset.
        case_decide as Hdec; [by destruct Hdec | by intros ?%Hnone].
    + intros g. rewrite Hreg // Hv.
      destruct (registered m g key0) eqn:Hr; [|done].
      by destruct (Hnone g).
Qed.
End output_phase.

(** ** Construction: the phases behind the outputs *)

Ltac emits_auto :=
  repeat first [emits_step | case_match];
  try by (rewrite /settled /after_outputs /after_expanders /=; intuition).

Section later_phases.
Context `{Externals}.
Implicit Types (m : Manager) (t : list event) (tp : string).

Lemma configure_relay_emits tp gpio :
  emits (λ m, _topic_prefix m = tp) (after_expanders tp) (configure_relay gpio).
Proof. unfold configure_relay. emits_auto. Qed.

Lemma output_comprehension_emits tp pins : ∀ acc,
  emits (λ m, _topic_prefix m = tp) (after_expanders tp)
    (output_comprehension pins acc).
Proof.
  induction pins as [|gpio pins IH]; intros acc; simpl; [emits_auto |].
  apply emits_bind; [emits_auto | intros key].
  apply emits_bind; [apply configure_relay_emits | intros value; apply IH].
Qed.

Lemma send_ha_autodiscovery_emits tp expanders groups outputs relay prefix ha_type :
  emits (settled tp expanders groups outputs) (after_outputs tp)
    (send_ha_autodiscovery relay prefix ha_type).
Proof.
  intros m t r Hm. pose proof Hm as (Htp & _).
  rewrite /send_ha_autodiscovery /bind /self /emit /=. intros [= <- <-].
  split; [|by intros ?? [= _ <-]].
  constructor; [|done]. rewrite Htp.
  split; [split |]; simpl; [by eexists _, _, _ | tauto..].
Qed.

Lemma announce_emits tp expanders groups outputs discovery prefix out :
  emits (settled tp expanders groups outputs) (after_outputs tp)
    (announce discovery prefix out).
Proof.
  unfold announce. apply emits_bind; [|intros _; emits_auto].
  destruct discovery; [|emits_auto].
  do 3 (apply emits_bind; [emits_auto | intros ?]).
  apply send_ha_autodiscovery_emits.
Qed.

Lemma buttons_comprehension_emits I P pins :
  (∀ pin gpio, P (NewButton pin gpio)) →
  emits I P (buttons_comprehension pins).
Proof.
  intros HP. induction pins as [|gpio pins IH]; simpl; [emits_auto |].
  apply emits_bind; [emits_auto | intros pin].
  apply emits_bind; [by apply emits_emit | intros _].
  apply emits_bind; [apply IH | intros rest; emits_auto].
Qed.

Lemma create_buttons_emits tp expanders groups outputs :
  emits (settled tp expanders groups outputs) (after_outputs tp) create_buttons.
Proof.
  unfold create_buttons. apply emits_bind; [emits_auto | intros m].
  apply emits_bind; [|intros created; emits_auto].
  apply buttons_comprehension_emits. intros pin gpio.
  rewrite /after_outputs /after_expanders /=. tauto.
Qed.

Lemma gather_host_data_emits tp expanders groups outputs a :
  emits (settled tp expanders groups outputs) (after_outputs tp)
    (gather_host_data a).
Proof. rewrite /gather_host_data /start_collector. emits_auto. Qed.

Lemma start_oled_emits tp expanders groups outputs a :
  emits (settled tp expanders groups outputs) (after_outputs tp) (start_oled a).
Proof. rewrite /start_oled. emits_auto. Qed.

(** The loop over the values of the output mapping returns only if every
    value is a device, and it leaves the Manager as it is. *)
Lemma announce_each_inr discovery prefix l : ∀ m t u m',
  for_each (announce discovery prefix) l m = (t, inr (u, m')) →
  Forall is_Some l ∧ m' = m.
Proof.
  induction l as [|out l IH]; intros m t u m' Hrun; simpl in Hrun; inv_run;
    [done |].
  match goal with
  | Ha : announce _ _ _ _ = _, Hl : for_each _ _ _ = _ |- _ =>
      apply IH in Hl as [Hl ->]; unfold announce in Ha; inv_run
  end.
  split; [by constructor |].
  destruct discovery; inv_run; [|done].
  match goal with
  | Hs : send_ha_autodiscovery _ _ _ _ = _ |- _ =>
      unfold send_ha_autodiscovery in Hs; by inv_run
  end.
Qed.

(** The phases of a construction that returned. *)
Lemma construct_inr a tr m :
  construct a = (tr, inr m) →
  ∃ t1 m1 t2 outputs m2 t3,
    register_expanders a (fresh a) = (t1, inr (tt, m1))
    ∧ output_comprehension (relay_pins a) [] m1 = (t2, inr (outputs, m2))
    ∧ Forall is_Some (dict_values outputs)
    ∧ settled (topic_prefix a) (_mcp m1) (_grouped_outputs m2) outputs m
    ∧ Forall (after_outputs (topic_prefix a)) t3
    ∧ tr = Log INFO "Initializing manager module." :: NewI2C
             :: t1 ++ t2 ++ t3
             ++ [SendMessage (topic_prefix a +:+ "/" +:+ STATE) (JStr ONLINE);
                 Log INFO "BoneIO manager is ready."].
Proof.
  unfold construct.
  destruct (__init__ a (fresh a)) as [t [e|[u m']]] eqn:Hrun; [done |].
  intros [= <- <-]. unfold __init__ in Hrun. inv_run.
  match goal with Hc : configure_outputs _ _ = _ |- _ =>
    unfold configure_outputs in Hc; inv_run end.
  match goal with
  | Hx : register_expanders _ _ = (?t1, inr (?u1, ?m1)),
    Hc : output_comprehension _ _ _ = (?t2, inr (?outputs, ?m2)),
    Ha : for_each (announce _ _) _ _ = (?ta, _),
    Hb : create_buttons _ = (?tb, _),
    Hg : gather_host_data _ _ = (?tg, _),
    Ho : start_oled _ _ = (?to, _) |- _ =>
      pose proof (register_expanders_inr _ _ _ _ Hx) as (_ & Htp1 & _);
      pose proof (output_comprehension_ids _ _ _ _ _ _ Hc)
        as (Htp2 & _ & Hmcp2 & _);
      pose proof (proj1 (announce_each_inr _ _ _ _ _ _ _ Ha)) as Hsome;
      assert (settled (topic_prefix a) (_mcp m1) (_grouped_outputs m2)
                outputs (set_output outputs m2)) as Hs0
        by (rewrite /settled /=; split_and!; congruence);
      destruct (emits_for_each _ _ _ _
                  (λ out, announce_emits _ _ _ _ _ _ out) _ _ _ Hs0 Ha)
        as [Hta Hs1];
      specialize (Hs1 _ _ eq_refl);
      destruct (create_buttons_emits _ _ _ _ _ _ _ Hs1 Hb) as [Htb Hs2];
      specialize (Hs2 _ _ eq_refl);
      destruct (gather_host_data_emits _ _ _ _ _ _ _ _ Hs2 Hg) as [Htg Hs3];
      specialize (Hs3 _ _ eq_refl);
      destruct (start_oled_emits _ _ _ _ _ _ _ _ Hs3 Ho) as [Hto Hs4];
      specialize (Hs4 _ _ eq_refl);
      destruct u1;
      exists t1, m1, t2, outputs, m2, (ta ++ tb ++ tg ++ to)
  end.
  split_and!; try done.
  - by rewrite !Forall_app.
  - simpl. by rewrite -!app_assoc.
Qed.
End later_phases.

(** ** Construction returns on well-formed arguments *)

Section returning.
Context `{Externals}.
Implicit Types (m : Manager) (a : init_args) (gpio : cfg).

Lemma returns_bind {A B} (c : M A) (k : A → M B) m t x m1 :
  c m = (t, inr (x, m1)) → returns (k x) m1 → returns (bind c k) m.
Proof.
  intros Hc (t2 & y & m2 & Hk). exists (t ++ t2), y, m2.
  by rewrite /bind Hc Hk.
Qed.

Lemma for_each_returns {A} (f : A → M unit) l :
  (∀ x m, x ∈ l → returns (f x) m) → ∀ m, returns (for_each f l) m.
Proof.
  induction l as [|x l IH]; intros Hf m; [by eexists _, _, _ |].
  destruct (Hf x m (list_elem_of_here _ _)) as (t & u & m1 & Hx).
  eapply returns_bind; [exact Hx |].
  apply IH. intros y m' Hy. by apply Hf, list_elem_of_further.
Qed.

Lemma register_expander_returns mcp m :
  expander_ok mcp → returns (register_expander mcp) m.
Proof.
  intros ([id Hid] & [address Ha] & z & Hz & Hpos).
  unfold expander_id in Hid.
  destruct (mcp !! ID) as [named|] eqn:Hn; [|done].
  unfold settle_time in Hz.
  assert ((z <? 0)%Z = false) as Hlt by by apply Z.ltb_ge.
  rewrite /returns /register_expander /bind /getitem /sleep Hn /=.
  destruct (truthy named); rewrite /= Ha /= Hz /= Hlt /=; eauto.
Qed.

Lemma register_expanders_returns a :
  Forall expander_ok (default [] (mcp23017 a)) →
  returns (register_expanders a) (fresh a).
Proof.
  intros Hok. unfold register_expanders.
  destruct (mcp23017 a) as [[|mcp l]|]; try by eexists _, _, _.
  apply for_each_returns. intros x m Hx. apply register_expander_returns.
  rewrite Forall_forall in Hok. by apply Hok.
Qed.

Lemma dict_set_is_Some {V} (d : odict V) k v k' :
  is_Some (dict_get d k') → is_Some (dict_get (dict_set d k v) k').
Proof. intros Hk. rewrite dict_get_set. by destruct (decide (k' = k)). Qed.

Lemma dict_values_set_Forall {V} (P : V → Prop) (d : odict V) k v :
  Forall P (dict_values d) → P v → Forall P (dict_values (dict_set d k v)).
Proof.
  intros Hd Hv. induction d as [|[k0 v0] d IH]; simpl.
  - by constructor.
  - apply Forall_cons in Hd as [Hv0 Hd].
    destruct (decide (k = k0)); simpl; constructor; auto.
Qed.

(** On an output that is in order, in a Manager that is ready,
    [configure_relay] returns a device and leaves the Manager ready. *)
Lemma configure_relay_returns expanders gpio m :
  output_ok expanders gpio → ready expanders m →
  ∃ t d m',
    configure_relay gpio m = (t, inr (Some d, m')) ∧ ready expanders m'.
Proof.
  intros ([relay_id Hid] & Hkind) [Hexp Hgrp].
  destruct (gpio !! KIND) as [kind|] eqn:Hk; [|done].
  rewrite /configure_relay /bind /getitem /self Hk /=.
  destruct (decide (kind = VStr MCP)) as [->|Hne].
  - destruct Hkind as ((mcp & Hin & Hmcp) & (pin & Hpin & Hint) & [ha_type Hha]).
    destruct (Hexp _ Hin) as (id & Hid' & [h Hh]). simplify_eq.
    destruct (Hgrp _ (mk_is_Some _ _ Hh)) as [group Hg].
    assert (∃ z, py_int pin m = ([], inr (z, m))) as [z Hz].
    { destruct pin as [|z|p]; simpl in *; [done | by eexists |].
      destruct Hint as [z ->]. by eexists. }
    rewrite Hh Hid Hpin /= Hz Hha /= /dict_getitem Hg /=.
    eexists _, _, _. split; [reflexivity |].
    split; simpl; [done |]. intros k Hsome. by apply dict_set_is_Some, Hgrp.
  - destruct Hkind as [-> [pin Hpin]]. rewrite decide_True //.
    set (m1 := if dict_in (VStr GPIO) (_grouped_outputs m) then m
               else set_grouped_outputs
                      (dict_set (_grouped_outputs m) (VStr GPIO) []) m).
    assert ((if dict_in (VStr GPIO) (_grouped_outputs m) then ret ()
             else modify (set_grouped_outputs
                            (dict_set (_grouped_outputs m) (VStr GPIO) []))) m
            = ([], inr (tt, m1))) as ->
      by (unfold m1; by destruct (dict_in _ _)).
    assert (_mcp m1 = _mcp m) as Hmcp1 by (unfold m1; by destruct (dict_in _ _)).
    assert (∀ k, is_Some (dict_get (_grouped_outputs m) k) →
                 is_Some (dict_get (_grouped_outputs m1) k)) as Hmono.
    { intros k Hsome. unfold m1. destruct (dict_in _ _); [done |].
      by apply dict_set_is_Some. }
    assert (is_Some (dict_get (_grouped_outputs m1) (VStr GPIO))) as [group Hg].
    { unfold m1. destruct (dict_in _ _) eqn:Hi; [by apply dict_in_spec |].
      by rewrite /= dict_get_set_eq. }
    rewrite /= Hpin Hid /= /dict_getitem Hg /=.
    eexists _, _, _. split; [reflexivity |].
    split; simpl; [by rewrite Hmcp1 |].
    intros k Hsome. rewrite Hmcp1 in Hsome.
    by apply dict_set_is_Some, Hmono, Hgrp.
Qed.

Lemma output_comprehension_returns expanders pins : ∀ acc m,
  Forall (output_ok expanders) pins → ready expanders m →
  Forall is_Some (dict_values acc) →
  ∃ t outputs m',
    output_comprehension pins acc m = (t, inr (outputs, m'))
    ∧ Forall is_Some (dict_values outputs).
Proof.
  induction pins as [|gpio pins IH]; intros acc m Hok Hready Hacc.
  { by eexists _, _, _. }
  apply Forall_cons in Hok as [Hgpio Hok].
  pose proof Hgpio as ([key Hkey] & _).
  destruct (configure_relay_returns _ _ _ Hgpio Hready)
    as (t1 & d & m1 & Hrun & Hready1).
  destruct (IH (dict_set acc key (Some d)) m1 Hok Hready1) as
    (t2 & outputs & m' & Hrest & Hsome).
  { by apply dict_values_set_Forall. }
  exists (t1 ++ t2), outputs, m'. split; [|done].
  by rewrite /= /bind /getitem Hkey /= Hrun Hrest.
Qed.

Lemma announce_returns discovery prefix out m :
  is_Some out → returns (announce discovery prefix out) m.
Proof.
  intros [d ->].
  rewrite /returns /announce /send_ha_autodiscovery /bind /self /emit.
  destruct discovery; simpl; eauto.
Qed.

Lemma buttons_comprehension_returns pins : ∀ m,
  Forall input_ok pins → returns (buttons_comprehension pins) m.
Proof.
  induction pins as [|gpio pins IH]; intros m Hok; [by eexists _, _, _ |].
  apply Forall_cons in Hok as [[pin Hpin] Hok].
  destruct (IH m Hok) as (t & created & m' & Hrest).
  rewrite /returns /= /bind /getitem /emit Hpin /= Hrest /=. eauto.
Qed.

Lemma start_collector_returns f m : returns (start_collector f) m.
Proof. rewrite /returns /start_collector /bind /self /emit /modify /=. eauto. Qed.

Lemma gather_host_data_returns a m : returns (gather_host_data a) m.
Proof.
  unfold gather_host_data. destruct (oled a || web a); [|by eexists _, _, _].
  do 2 (eapply returns_bind; [reflexivity |]).
  destruct (for_each_returns start_collector host_stats) with
    (m := set_host_data true m) as (t & [] & m' & Hs).
  { intros f m' _. apply start_collector_returns. }
  eapply returns_bind; [exact Hs |]. by eexists _, _, _.
Qed.

Lemma start_oled_returns a m : returns (start_oled a) m.
Proof.
  unfold start_oled. destruct (oled a); [|by eexists _, _, _].
  rewrite /returns /bind /self /emit /modify /=. eauto.
Qed.

(** Every phase returns, one after the other, when the arguments are well
    formed. *)
Lemma construct_returns a : well_formed a → ∃ tr m, construct a = (tr, inr m).
Proof.
  intros (Hexp & Hout & Hin).
  assert (returns (__init__ a) (fresh a)) as (tr & [] & m & Hrun);
    [|exists tr, m; by rewrite /construct Hrun].
  unfold __init__.
  do 2 (eapply returns_bind; [reflexivity |]).
  destruct (register_expanders_returns a Hexp) as (t1 & [] & m1 & Hx).
  eapply returns_bind; [exact Hx |].
  pose proof (register_expanders_inr _ _ _ _ Hx)
    as (_ & _ & Hin1 & _ & Hreg & Hmcp & _).
  assert (ready (default [] (mcp23017 a)) m1) as Hready.
  { split.
    - intros mcp (id & address & z & Hid & _ & _ & _ & Hh & _)%Hreg. eauto.
    - intros k [h (mcp & Hl & Hid & _)%Hmcp].
      destruct (Hreg _ Hl) as (id & address & z & Hid' & _ & _ & _ & _ & Hg).
      simplify_eq. by rewrite Hg. }
  destruct (output_comprehension_returns _ _ [] m1 Hout Hready)
    as (t2 & outputs & m2 & Hc & Hsome); [done |].
  pose proof (output_comprehension_ids _ _ _ _ _ _ Hc) as (_ & Hin2 & _).
  destruct (for_each_returns
              (announce (ha_discovery a) (ha_discovery_prefix a))
              (dict_values outputs)) with (m := set_output outputs m2)
    as (t3 & [] & m3 & Ha).
  { intros out m' Hl. apply announce_returns.
    rewrite Forall_forall in Hsome. by apply Hsome. }
  pose proof (proj2 (announce_each_inr _ _ _ _ _ _ _ Ha)) as ->.
  eapply returns_bind.
  { rewrite /configure_outputs /bind Hc /=.
    rewrite Ha /=. reflexivity. }
  destruct (buttons_comprehension_returns (input_pins a) (set_output outputs m2))
    as (t4 & created & m4 & Hb); [done |].
  eapply returns_bind.
  { rewrite /create_buttons /bind /self /= Hin2 Hin1 Hb /=. reflexivity. }
  destruct (gather_host_data_returns a (set_buttons created m4))
    as (t5 & [] & m5 & Hg).
  eapply returns_bind; [exact Hg |].
  destruct (start_oled_returns a m5) as (t6 & [] & m6 & Ho).
  eapply returns_bind; [exact Ho |].
  by eexists _, _, _.
Qed.
End returning.

(** ** The constructed Manager *)

Section constructed.
Context `{Externals}.
Implicit Types (m : Manager) (a : init_args) (d : OutputDevice).

Lemma last_char_app s1 s2 : s2 ≠ "" → last_char (s1 +:+ s2) = last_char s2.
Proof.
  intros Hne. induction s1 as [|c s1 IH]; [done |].
  rewrite str_app_cons /= IH.
  by destruct (s1 +:+ s2) eqn:Happ; [apply str_app_not_nil in Happ |].
Qed.

(** A discovery topic ends in "/config", the status topic in "/state". *)
Lemma discovery_topic_not_state prefix ha_type tp tp' :
  prefix +:+ "/" +:+ ha_type +:+ "/" +:+ tp +:+ "/" +:+ ha_type +:+ "/config"
  ≠ tp' +:+ "/state".
Proof.
  intros Heq. apply (f_equal last_char) in Heq.
  rewrite !last_char_app // in Heq;
    repeat (done || apply str_app_not_nil).
Qed.

Lemma expander_events_quiet tp (l : list cfg) :
  Forall (λ ev, publishes_discovery_only tp ev ∧ ¬ is_new_relay ev)
    (flat_map expander_events l).
Proof.
  induction l as [|mcp l IH]; simpl; [done |].
  apply Forall_app. split; [|done]. unfold expander_events.
  repeat case_match; repeat constructor; simpl; tauto.
Qed.

(** Every value of the output mapping of a constructed Manager is a
    device, and it is stored under its own id. *)
Lemma construct_output a tr m k v :
  construct a = (tr, inr m) →
  dict_get (output m) k = Some v →
  ∃ d, v = Some d ∧ dev_id d = k.
Proof.
  intros (t1 & m1 & t2 & outputs & m2 & t3 & _ & Hc & Hsome & Hm & _)%construct_inr.
  destruct Hm as (_ & _ & _ & ->). intros Hk.
  pose proof (dict_get_values _ _ _ Hk) as Hin.
  rewrite Forall_forall in Hsome. destruct (Hsome _ Hin) as [d ->].
  exists d. split; [done |].
  apply output_comprehension_ids in Hc as (_ & _ & _ & _ & Hids & _).
  by apply Hids.
Qed.

(** C1, as the code has it.  For a constructed Manager and an id of its
    output mapping, whatever value the id is, take the command topic
    [{topic-prefix}/relay/{id}/set] the descriptor advertises.  When the
    id is the string the two deletions leave of that topic, the message
    "ON" calls [turn_on] on the device with the id and does nothing else,
    "OFF" calls [turn_off] on it, and any other message does nothing.
    Every string without "/" is such an id.  On any topic, the device is
    called only when the deletions leave its id: an id that has one of the
    deleted patterns inside, or that is not a string, is not reached
    through its command topic. *)
Theorem receive_message_routes a tr m (id : pyval) :
  construct a = (tr, inr m) →
  is_Some (dict_get (output m) id) →
  ∃ d,
    dict_get (output m) id = Some (Some d)
    ∧ dev_id d = id
    ∧ let topic := topic_prefix a +:+ "/relay/" +:+ str id +:+ "/set" in
      (id = VStr (extracted_relay (topic_prefix a) topic) →
       call (receive_message topic "ON") m = ([Invoke d turn_on], None)
       ∧ call (receive_message topic "OFF") m = ([Invoke d turn_off], None)
       ∧ ∀ message, message ≠ "ON" → message ≠ "OFF" →
           call (receive_message topic message) m = ([], None))
      ∧ (∀ R1, id = VStr R1 → no_slash R1 →
           id = VStr (extracted_relay (topic_prefix a) topic))
      ∧ (∀ topic' message t e op,
           call (receive_message topic' message) m = (t, e) →
           Invoke d op ∈ t →
           id = VStr (extracted_relay (topic_prefix a) topic')).
Proof.
  intros Hrun [v Hv].
  destruct (construct_output _ _ _ _ _ Hrun Hv) as (d & -> & Hd).
  pose proof (λ k v, construct_output _ _ _ k v Hrun) as Hvalues.
  apply construct_inr in Hrun
    as (t1 & m1 & t2 & outputs & m2 & t3 & _ & _ & _ & (Htp & _) & _).
  exists d. do 2 (split; [done |]). intros topic. split_and!.
  - intros Hex.
    assert (dict_get (output m)
              (VStr (extracted_relay (_topic_prefix m) topic))
            = Some (Some d)) as Hfound by by rewrite Htp -Hex.
    split_and!.
    + by rewrite (receive_message_found _ _ _ d).
    + by rewrite (receive_message_found _ _ _ d).
    + intros message Hon Hoff. rewrite (receive_message_found _ _ _ d) //.
      apply String.eqb_neq in Hon, Hoff. by rewrite Hon Hoff.
  - intros R1 -> Hno. unfold topic.
    change (str (VStr R1)) with R1. by rewrite extracted_relay_command.
  - intros topic' message t e op.
    rewrite /call /receive_message /bind /self /= Htp.
    destruct (dict_get (output m)
                (VStr (extracted_relay (topic_prefix a) topic')))
      as [[d'|]|] eqn:Hget;
      [|by intros [= <- _] ?%elem_of_nil..].
    destruct (Hvalues _ _ Hget) as (d'' & [= <-] & Hd').
    assert (∀ op', Invoke d op ∈ [Invoke d' op'] →
              id = VStr (extracted_relay (topic_prefix a) topic')) as Hone.
    { intros op' [= -> _]%list_elem_of_singleton. by rewrite -Hd. }
    destruct (String.eqb message ON); [intros [= <- _]; apply Hone |].
    destruct (String.eqb message OFF); [intros [= <- _]; apply Hone |].
    by intros [= <- _] ?%elem_of_nil.
Qed.

(** C6, as the code has it.  When the configured output ids are pairwise
    distinct and the construction returns, every configured output is
    registered in the group of its configured kind (the group of its
    expander, or the direct group) and in no other group, the output
    mapping holds the same device under the id, and no other registered
    device has that id. *)
Theorem outputs_registered_once a tr m :
  construct a = (tr, inr m) →
  NoDup (configured_ids (relay_pins a)) →
  ∀ gpio, gpio ∈ relay_pins a →
    ∃ relay_id group d,
      gpio !! ID = Some relay_id
      ∧ configured_group gpio = Some group
      ∧ registered m group relay_id = Some d
      ∧ dict_get (output m) relay_id = Some (Some d)
      ∧ dev_id d = relay_id
      ∧ (∀ g, is_Some (registered m g relay_id) → g = group)
      ∧ (∀ g k d', registered m g k = Some d' → dev_id d' = relay_id →
           g = group ∧ k = relay_id ∧ d' = d).
Proof.
  intros Hrun Hnd gpio Hin.
  pose proof (λ k v, construct_output _ _ _ k v Hrun) as Hvalues.
  apply construct_inr in Hrun
    as (t1 & m1 & t2 & outputs & m2 & t3 & Hx & Hc & _ & Hm & _).
  destruct Hm as (_ & _ & Hgroups & Hout).
  assert (∀ g k, registered m g k = registered m2 g k) as Hsame
    by (intros g k; by rewrite /registered Hgroups).
  apply register_expanders_inr in Hx as (_ & _ & _ & _ & _ & _ & Hempty).
  assert (∀ g k, registered m1 g k = None) as Hnone.
  { intros g k. unfold registered.
    destruct (dict_get (_grouped_outputs m1) g) as [devices|] eqn:Hg; [|done].
    by rewrite (Hempty _ _ Hg). }
  pose proof (output_comprehension_ids _ _ _ _ _ _ Hc)
    as (_ & _ & _ & _ & _ & Hids & _).
  apply output_comprehension_groups in Hc as (_ & _ & Hpins); [|done|];
    last first.
  { intros g k [d Hd]. by rewrite Hnone in Hd. }
  destruct (Hpins _ Hin) as (relay_id & Hid & Hcase).
  rewrite -Hout in Hcase.
  destruct (dict_get (output m) relay_id) as [v|] eqn:Hv; [|done].
  destruct (Hvalues _ _ Hv) as (d & -> & Hd).
  destruct Hcase as (group & Hgroup & _ & Hreg & Huniq).
  exists relay_id, group, d. rewrite !Hsame.
  split_and!; try done.
  - intros g. rewrite Hsame. apply Huniq.
  - intros g k d' Hd' Hk. rewrite Hsame in Hd'.
    assert (k = relay_id) as ->.
    { rewrite -Hk. symmetry. apply (Hids ltac:(by intros ???; rewrite Hnone) g).
      done. }
    assert (g = group) as -> by (apply Huniq; by rewrite Hd').
    split_and!; try done. congruence.
Qed.

(** C8.  On well-formed arguments the construction returns, and a
    construction that returns ends with the publish of "online" on
    [{topic-prefix}/state], followed only by the closing log line; every
    publish before it is an autodiscovery descriptor, none of them goes to
    the status topic and none carries "online". *)
Theorem online_published_last a :
  (well_formed a → ∃ tr m, construct a = (tr, inr m))
  ∧ ∀ tr m,
      construct a = (tr, inr m) →
      ∃ before,
        tr = before
             ++ [SendMessage (topic_prefix a +:+ "/state") (JStr "online");
                 Log INFO "BoneIO manager is ready."]
        ∧ Forall (publishes_discovery_only (topic_prefix a)) before
        ∧ ∀ topic payload, SendMessage topic payload ∈ before →
            topic ≠ topic_prefix a +:+ "/state" ∧ payload ≠ JStr "online".
Proof.
  split; [apply construct_returns |]. intros tr m.
  intros (t1 & m1 & t2 & outputs & m2 & t3 & Hx & Hc & _ & _ & Ht3 & ->)%construct_inr.
  pose proof (register_expanders_inr _ _ _ _ Hx) as (-> & Htp & _).
  destruct (output_comprehension_emits (topic_prefix a) _ _ _ _ _ Htp Hc)
    as [Ht2 _].
  set (t1 := flat_map expander_events (default [] (mcp23017 a))).
  exists (Log INFO "Initializing manager module." :: NewI2C :: t1 ++ t2 ++ t3).
  assert (Forall (publishes_discovery_only (topic_prefix a))
            (Log INFO "Initializing manager module." :: NewI2C
               :: t1 ++ t2 ++ t3)) as Hall.
  { repeat constructor. rewrite !Forall_app. split_and!.
    - eapply Forall_impl; [apply (expander_events_quiet (topic_prefix a)) |].
      by intros ev [? _].
    - eapply Forall_impl; [exact Ht2 |]. by intros ev [? _].
    - eapply Forall_impl; [exact Ht3 |]. by intros ev [[? _] _]. }
  split_and!; [by rewrite /= -!app_assoc | done |].
  intros topic payload Hin. rewrite Forall_forall in Hall.
  destruct (Hall _ Hin) as (relay & prefix & ha_type & -> & ->).
  split; [apply discovery_topic_not_state | done].
Qed.

(** C9.  In a construction that returns, the expander phase comes first:
    for each configured expander, in order, the handle is acquired at its
    bus address and the Manager sleeps for its settle time; when the phase
    is over every expander has its handle and an empty output group under
    its id (the configured id, or the bus address when it has no name),
    every handle is the one of a configured expander, and no device has
    been constructed.  Nothing that follows acquires a handle or sleeps. *)
Theorem expanders_registered_first a tr m expanders :
  construct a = (tr, inr m) →
  mcp23017 a = Some expanders →
  ∃ m1 later,
    register_expanders a (fresh a)
    = (flat_map expander_events expanders, inr (tt, m1))
    ∧ tr = Log INFO "Initializing manager module." :: NewI2C
             :: flat_map expander_events expanders ++ later
    ∧ Forall (λ ev, ¬ is_new_relay ev) (flat_map expander_events expanders)
    ∧ Forall (λ ev, ¬ is_expander_event ev) later
    ∧ (∀ mcp, mcp ∈ expanders →
         ∃ id address z msg,
           expander_id mcp = Some id
           ∧ mcp !! ADDRESS = Some address
           ∧ settle_time mcp = VInt z ∧ (0 ≤ z)%Z
           ∧ expander_events mcp
             = [NewMCP23017 address; Log DEBUG msg; Sleep z]
           ∧ is_Some (dict_get (_mcp m1) id)
           ∧ dict_get (_grouped_outputs m1) id = Some [])
    ∧ (∀ id h, dict_get (_mcp m1) id = Some h →
         ∃ mcp, mcp ∈ expanders ∧ expander_id mcp = Some id
                ∧ mcp !! ADDRESS = Some (mcp_address h))
    ∧ (∀ g devices, dict_get (_grouped_outputs m1) g = Some devices →
         devices = [])
    ∧ _mcp m = _mcp m1.
Proof.
  intros (t1 & m1 & t2 & outputs & m2 & t3 & Hx & Hc & _ & Hm & Ht3 & ->)%construct_inr
    Hexp.
  pose proof (register_expanders_inr _ _ _ _ Hx)
    as (-> & Htp & _ & _ & Hreg & Hmcp & Hempty).
  rewrite Hexp /= in Hx Hreg Hmcp |- *.
  destruct (output_comprehension_emits (topic_prefix a) _ _ _ _ _ Htp Hc)
    as [Ht2 _].
  exists m1, (t2 ++ t3
              ++ [SendMessage (topic_prefix a +:+ "/" +:+ STATE) (JStr ONLINE);
                  Log INFO "BoneIO manager is ready."]).
  split_and!; try done.
  - eapply Forall_impl; [apply (expander_events_quiet "") |]. by intros ev [_ ?].
  - rewrite !Forall_app. split_and!.
    + eapply Forall_impl; [exact Ht2 |]. by intros ev [_ ?].
    + eapply Forall_impl; [exact Ht3 |]. by intros ev [[_ ?] _].
    + repeat constructor; simpl; tauto.
  - intros mcp (id & address & z & Hid & Haddr & Hz & Hpos & Hh & Hg)%Hreg.
    eexists id, address, z, _. split_and!; try done.
    by rewrite /expander_events Hid Haddr Hz.
  - by destruct Hm as (_ & -> & _).
Qed.
End constructed.

(** ** The model on concrete boards *)

Section examples.
Local Existing Instance Sample.externals.

(** C3.  An expander output whose [mcp_id] names no configured expander
    is not skipped: [configure_relay] logs its error and returns [None],
    the comprehension stores that [None] under the id, and the loop over
    the values of the mapping then reads an attribute of [None].  The
    construction raises [AttributeError], with autodiscovery and
    without. *)
Theorem construct_orphan_output_raises :
  construct (Sample.orphan true)
  = ([Log INFO "Initializing manager module."; NewI2C;
      NewMCP23017 (VInt 32);
      Log DEBUG "Sleeping for 2s while MCP mcp1 is initializing.";
      Sleep 2;
      Log ERROR "No such MCP configured!";
      Log DEBUG "Sending HA discovery."],
     inl (AttributeError "id"))
  ∧ construct (Sample.orphan false)
    = ([Log INFO "Initializing manager module."; NewI2C;
        NewMCP23017 (VInt 32);
        Log DEBUG "Sleeping for 2s while MCP mcp1 is initializing.";
        Sleep 2;
        Log ERROR "No such MCP configured!"],
       inl (AttributeError "send_state")).
Proof. split; vm_compute; reflexivity. Qed.

(** Counterexample to C1, an id with "/set" inside: the output "a/setb"
    is configured and in the mapping, and "ON" on its command topic calls
    no device, because the id extracted from the topic is "ab". *)
Lemma receive_message_misses_slashed_id :
  let m := Sample.manager_of Sample.slashed in
  (construct Sample.slashed).2 = inr m
  ∧ is_Some (dict_get (output m) (VStr "a/setb"))
  ∧ extracted_relay "home1" "home1/relay/a/setb/set" = "ab"
  ∧ call (receive_message "home1/relay/a/setb/set" "ON") m = ([], None).
Proof. vm_compute. split_and!; eauto. Qed.

(** Counterexample to C4: the payload published for topic prefix "home1",
    relay "R1", discovery prefix "homeassistant" and type "switch" does not
    have the [unique_id] "home1switchR1". *)
(** An integer id is a key of the output mapping and the descriptor
    advertises its command topic, but the key [receive_message] looks up
    is a string: the command does nothing. *)
Lemma receive_message_misses_integer_id :
  let m := Sample.manager_of Sample.numbered in
  (construct Sample.numbered).2 = inr m
  ∧ is_Some (dict_get (output m) (VInt 7))
  ∧ field "command_topic" (ha_availibilty_message "home1" (VInt 7))
    = Some (JStr "home1/relay/7/set")
  ∧ extracted_relay "home1" "home1/relay/7/set" = "7"
  ∧ dict_get (output m) (VStr "7") = None
  ∧ call (receive_message "home1/relay/7/set" "ON") m = ([], None).
Proof. vm_compute. split_and!; eauto. Qed.

Lemma unique_id_is_not_home1switchR1 :
  ¬ ∃ topic msg,
      call (send_ha_autodiscovery (VStr "R1") "homeassistant" (VStr "switch"))
        (fresh Sample.board)
      = ([SendMessage topic msg], None)
      ∧ field "unique_id" msg = Some (JStr "home1switchR1")
      ∧ field "state_topic" msg = Some (JStr "home1/relay/R1").
Proof.
  intros (topic & msg & Hcall & Hid & _).
  vm_compute in Hcall. injection Hcall as <- <-. vm_compute in Hid.
  discriminate Hid.
Qed.

(** Counterexample to C6, two outputs that share an id: "R1" is registered
    in the group of the expander and in the direct group, with two
    devices. *)
Lemma duplicate_id_in_two_groups :
  let m := Sample.manager_of Sample.twice in
  (construct Sample.twice).2 = inr m
  ∧ (∃ d, registered m (VStr "mcp1") (VStr "R1") = Some d
          ∧ dev_id d = VStr "R1"
          ∧ dev_class d = MCPRelay {| mcp_address := VInt 32 |} (VStr "mcp1"))
  ∧ (∃ d, registered m (VStr "gpio") (VStr "R1") = Some d
          ∧ dev_id d = VStr "R1" ∧ dev_class d = GpioRelay)
  ∧ VStr "mcp1" ≠ VStr "gpio".
Proof. vm_compute. split_and!; eauto. discriminate. Qed.
End examples.

(** ** The theorems at work on the sample board *)

Section witnesses.
Local Existing Instance Sample.externals.

Local Abbreviation board := Sample.board.
Local Abbreviation m0 := (Sample.manager_of Sample.board).
Local Abbreviation tr0 := ((construct Sample.board).1).

Lemma receive_message_routes_witness :
  let mn := Sample.manager_of Sample.nested in
  let trn := (construct Sample.nested).1 in
  construct board = (tr0, inr m0)
  ∧ is_Some (dict_get (output m0) (VStr "R1"))
  ∧ (∃ d, call (receive_message "home1/relay/R1/set" "ON") m0
          = ([Invoke d turn_on], None))
  ∧ construct Sample.nested = (trn, inr mn)
  ∧ is_Some (dict_get (output mn) (VStr "a/b"))
  ∧ (∃ d, dev_id d = VStr "a/b"
          ∧ call (receive_message "home1/relay/a/b/set" "OFF") mn
            = ([Invoke d turn_off], None)).
Proof.
  intros mn trn.
  assert (construct board = (tr0, inr m0)) as Hrun by (vm_compute; reflexivity).
  assert (is_Some (dict_get (output m0) (VStr "R1"))) as Hin
    by (vm_compute; eauto).
  assert (construct Sample.nested = (trn, inr mn)) as Hrun'
    by (vm_compute; reflexivity).
  assert (is_Some (dict_get (output mn) (VStr "a/b"))) as Hin'
    by (vm_compute; eauto).
  split_and!; try done.
  - destruct (receive_message_routes board tr0 m0 (VStr "R1") Hrun Hin)
      as (d & _ & _ & Hroutes & _).
    exists d. apply Hroutes. vm_compute. reflexivity.
  - destruct (receive_message_routes Sample.nested trn mn (VStr "a/b") Hrun' Hin')
      as (d & _ & Hd & Hroutes & _).
    exists d. split; [exact Hd |]. apply Hroutes. vm_compute. reflexivity.
Defined.

Lemma press_callback_routes_witness :
  (∃ d, call (press_callback "single" "P9_1" Sample.single_toggles_R1) m0
        = ([SendMessage "home1/input/P9_1" (JStr "single"); Invoke d toggle],
           None))
  ∧ call (press_callback "single" "P9_1" ∅) m0
    = ([SendMessage "home1/input/P9_1" (JStr "single")], None).
Proof.
  pose proof (press_callback_routes m0 "single" "P9_1" Sample.single_toggles_R1)
    as (_ & Htoggle & _).
  pose proof (press_callback_routes m0 "single" "P9_1" ∅)
    as (_ & _ & _ & _ & Hnone & _).
  split.
  - eexists. eapply Htoggle; vm_compute; reflexivity.
  - apply Hnone. vm_compute. reflexivity.
Defined.

Lemma send_ha_autodiscovery_home1_witness :
  _topic_prefix m0 = "home1"
  ∧ ∃ msg,
      call (send_ha_autodiscovery (VStr "R1") "homeassistant" (VStr "switch")) m0
      = ([SendMessage "homeassistant/switch/home1/switch/config" msg], None)
      ∧ field "unique_id" msg = Some (JStr "home1relayR1")
      ∧ field "state_topic" msg = Some (JStr "home1/relay/R1").
Proof.
  split; [vm_compute; reflexivity |].
  apply (send_ha_autodiscovery_home1 m0). vm_compute. reflexivity.
Defined.

Lemma receive_message_unknown_id_witness :
  dict_get (output m0) (VStr (extracted_relay (_topic_prefix m0) "home1/relay/R9/set"))
  = None
  ∧ call (receive_message "home1/relay/R9/set" "ON") m0 = ([], None).
Proof.
  split; [vm_compute; reflexivity |].
  apply (receive_message_unknown_id m0). vm_compute. reflexivity.
Defined.

Lemma outputs_registered_once_witness :
  construct board = (tr0, inr m0)
  ∧ NoDup (configured_ids (relay_pins board))
  ∧ Sample.direct_relay "R2" ∈ relay_pins board
  ∧ ∃ d, registered m0 (VStr "gpio") (VStr "R2") = Some d
         ∧ ∀ g, is_Some (registered m0 g (VStr "R2")) → g = VStr "gpio".
Proof.
  assert (construct board = (tr0, inr m0)) as Hrun by (vm_compute; reflexivity).
  assert (NoDup (configured_ids (relay_pins board))) as Hnd.
  { apply (bool_decide_unpack _). vm_compute. exact I. }
  assert (Sample.direct_relay "R2" ∈ relay_pins board) as Hin
    by (apply list_elem_of_further, list_elem_of_here).
  split_and!; try done.
  destruct (outputs_registered_once board tr0 m0 Hrun Hnd _ Hin)
    as (relay_id & group & d & Hid & Hgroup & Hreg & _ & _ & Huniq & _).
  vm_compute in Hid, Hgroup. injection Hid as <-. injection Hgroup as <-.
  exists d. split; [exact Hreg | exact Huniq].
Defined.

Lemma send_ha_autodiscovery_descriptor_witness :
  _topic_prefix (fresh board) = _topic_prefix m0
  ∧ call (send_ha_autodiscovery (VStr "R1") "homeassistant" (VStr "switch"))
      (fresh board)
    = call (send_ha_autodiscovery (VStr "R1") "homeassistant" (VStr "switch")) m0.
Proof.
  split; [vm_compute; reflexivity |].
  apply (send_ha_autodiscovery_descriptor m0 (VStr "R1") "homeassistant"
           (VStr "switch")).
  vm_compute. reflexivity.
Defined.

Lemma sample_board_well_formed : well_formed board.
Proof.
  split_and!.
  - apply Forall_cons; split; [|apply Forall_cons; split; [|constructor]].
    + split_and!; [vm_compute; eauto.. |].
      exists 2%Z. split; [vm_compute; reflexivity | lia].
    + split_and!; [vm_compute; eauto.. |].
      exists 0%Z. split; [vm_compute; reflexivity | lia].
  - apply Forall_cons; split; [|apply Forall_cons; split; [|constructor]].
    + split; [vm_compute; eauto |].
      change (Sample.expander_relay "R1" "mcp1" !! KIND) with (Some (VStr "mcp")).
      cbv beta iota. case_decide as Hkind; [|by destruct Hkind]. split_and!.
      * exists Sample.mcp1. split; [apply list_elem_of_here |].
        vm_compute. reflexivity.
      * exists (VStr "3"). split; vm_compute; eauto.
      * vm_compute. eauto.
    + split; [vm_compute; eauto |].
      change (Sample.direct_relay "R2" !! KIND) with (Some (VStr "gpio")).
      cbv beta iota. case_decide as Hkind; [by vm_compute in Hkind |].
      split; [done |]. vm_compute. eauto.
  - constructor.
Qed.

Lemma online_published_last_witness :
  well_formed board
  ∧ construct board = (tr0, inr m0)
  ∧ (∃ tr m, construct board = (tr, inr m))
  ∧ ∃ before,
      tr0 = before ++ [SendMessage "home1/state" (JStr "online");
                       Log INFO "BoneIO manager is ready."]
      ∧ ∀ topic payload, SendMessage topic payload ∈ before →
          topic ≠ "home1/state" ∧ payload ≠ JStr "online".
Proof.
  assert (construct board = (tr0, inr m0)) as Hrun by (vm_compute; reflexivity).
  destruct (online_published_last board) as [Hreturns Hlast].
  split_and!; [exact sample_board_well_formed | done
              | exact (Hreturns sample_board_well_formed) |].
  destruct (Hlast tr0 m0 Hrun) as (before & Htr & _ & Hpub).
  exists before. split; [exact Htr | exact Hpub].
Defined.

Lemma expanders_registered_first_witness :
  construct board = (tr0, inr m0)
  ∧ mcp23017 board = Some [Sample.mcp1; Sample.unnamed]
  ∧ ∃ m1 later,
      tr0 = Log INFO "Initializing manager module." :: NewI2C
              :: flat_map expander_events [Sample.mcp1; Sample.unnamed] ++ later
      ∧ dict_get (_grouped_outputs m1) (VStr "mcp1") = Some []
      ∧ dict_get (_grouped_outputs m1) (VInt 33) = Some []
      ∧ Forall (λ ev, ¬ is_expander_event ev) later.
Proof.
  assert (construct board = (tr0, inr m0)) as Hrun by (vm_compute; reflexivity).
  assert (mcp23017 board = Some [Sample.mcp1; Sample.unnamed]) as Hexp
    by reflexivity.
  split_and!; try done.
  destruct (expanders_registered_first board tr0 m0 _ Hrun Hexp)
    as (m1 & later & _ & Htr & _ & Hlater & Hreg & _).
  exists m1, later. split_and!; try done.
  - destruct (Hreg Sample.mcp1 (list_elem_of_here _ _))
      as (id & address & z & msg & Hid & _ & _ & _ & _ & _ & Hgroup).
    vm_compute in Hid. injection Hid as <-. exact Hgroup.
  - destruct (Hreg Sample.unnamed
                (list_elem_of_further _ _ _ (list_elem_of_here _ _)))
      as (id & address & z & msg & Hid & _ & _ & _ & _ & _ & Hgroup).
    vm_compute in Hid. injection Hid as <-. exact Hgroup.
Defined.

Lemma receive_message_deletes_every_occurrence_witness :
  no_slash "R1"
  ∧ (∃ d, dict_get (output m0) (VStr "R1") = Some (Some d)
          ∧ call (receive_message "home1/relay/R1/set/set" "ON") m0
            = ([Invoke d turn_on], None)).
Proof.
  assert (no_slash "R1") as Hid by (vm_compute; reflexivity).
  split; [done |]. eexists. split; [vm_compute; reflexivity |].
  eapply (receive_message_deletes_every_occurrence m0 "R1" _ Hid).
  vm_compute. reflexivity.
Defined.
End witnesses.

(** ** The anatomy of a construction *)

(** As [inv_run], keeping what [int] returned. *)
Ltac inv_full :=
  repeat match goal with
  | H : py_int ?v _ = (_, inr (?z, _)) |- _ =>
      let Hz := fresh "Hint" in
      assert (int_value v = Some z) as Hz
        by (revert H; destruct v; simpl; try done;
            [by intros [= _ <- _] | by case_match; [intros [= _ <- _] |]]);
      apply py_int_inr in H as (-> & ?); subst
  | H : bind _ _ _ = (_, inr _) |- _ =>
      apply bind_inr in H as (? & ? & ? & ? & ? & H & ->)
  | H : ret _ _ = (_, inr _) |- _ => apply ret_inr in H as (-> & ? & ?); subst
  | H : emit _ _ = (_, inr _) |- _ => apply emit_inr in H as (-> & ?); subst
  | H : self _ = (_, inr _) |- _ => apply self_inr in H as (-> & ? & ?); subst
  | H : modify _ _ = (_, inr _) |- _ => apply modify_inr in H as (-> & ?); subst
  | H : getitem _ _ _ = (_, inr _) |- _ =>
      apply getitem_inr in H as (H & -> & ?); subst
  | H : dict_getitem _ _ _ = (_, inr _) |- _ =>
      apply dict_getitem_inr in H as (H & -> & ?); subst
  | H : getattr _ _ _ = (_, inr _) |- _ =>
      apply getattr_inr in H as (? & -> & ?); subst
  | H : sleep _ _ = (_, inr _) |- _ =>
      apply sleep_inr in H as (? & H & ? & -> & ?); subst
  end.

Section anatomy.
Context `{Externals}.
Implicit Types (m : Manager) (a : init_args) (gpio : cfg) (d : OutputDevice)
  (t : list event).

(** The device [configure_relay] returns is the one the configuration
    describes, and its construction is all the call shows. *)
Lemma configure_relay_described gpio m t d m' :
  configure_relay gpio m = (t, inr (Some d, m')) →
  described_by (_mcp m) gpio d ∧ t = [NewRelay d].
Proof.
  unfold configure_relay. intros Hrun. inv_full.
  match goal with Hk : gpio !! KIND = Some ?kind |- _ =>
    rename Hk into Hkind; rename kind into kd end.
  destruct (decide (kd = VStr MCP)) as [->|Hmcp].
  - inv_full.
    destruct (dict_get (_mcp m) (default (VStr "") (gpio !! MCP_ID)))
      as [mcp|] eqn:Hh; inv_full; simplify_eq.
    split; [|done]. eexists _, _. split_and!; [eassumption.. |].
    rewrite decide_True //. eexists _, _, _, _. by split_and!.
  - destruct (decide (kd = VStr GPIO)) as [->|Hgpio]; inv_full; simplify_eq.
    split.
    + eexists _, _. split_and!; [eassumption.. |].
      rewrite decide_False //. split; [done |]. by eexists.
    + match goal with
      | Hc : (if dict_in _ _ then _ else _) _ = (?t0, _) |- _ =>
          assert (t0 = []) as -> by (destruct (dict_in _ _); by inv_full)
      end.
      done.
Qed.

(** A call that returns [None] shows the error log or nothing. *)
Lemma configure_relay_skipped gpio m t m' :
  configure_relay gpio m = (t, inr (None, m')) →
  t = [Log ERROR "No such MCP configured!"] ∨ t = [].
Proof.
  unfold configure_relay. intros Hrun. inv_full.
  match goal with Hk : gpio !! KIND = Some ?kind |- _ =>
    rename Hk into Hkind; rename kind into kd end.
  destruct (decide (kd = VStr MCP)) as [->|Hmcp].
  - inv_full.
    destruct (dict_get (_mcp m) (default (VStr "") (gpio !! MCP_ID)))
      as [mcp|] eqn:Hh; inv_full; simplify_eq. by left.
  - destruct (decide (kd = VStr GPIO)) as [->|Hgpio]; inv_full; simplify_eq.
    by right.
Qed.

Lemma output_comprehension_trace pins : ∀ acc m t outputs m',
  output_comprehension pins acc m = (t, inr (outputs, m')) →
  Forall comprehension_event t.
Proof.
  induction pins as [|gpio pins IH]; intros acc m t outputs m' Hrun;
    simpl in Hrun; inv_run; [done |].
  match goal with
  | H1 : configure_relay _ _ = (_, inr (?v, _)),
    H2 : output_comprehension _ _ _ = _ |- _ =>
      apply IH in H2; destruct v as [d|];
      [apply configure_relay_described in H1 as [_ ->]
      |apply configure_relay_skipped in H1 as [-> | ->]]
  end; simpl; [constructor; [left; by eexists | done]
              | constructor; [by right | done] | done].
Qed.

Lemma output_comprehension_app l1 : ∀ l2 acc m t outputs m',
  output_comprehension (l1 ++ l2) acc m = (t, inr (outputs, m')) →
  ∃ t1 acc1 m1 t2,
    output_comprehension l1 acc m = (t1, inr (acc1, m1))
    ∧ output_comprehension l2 acc1 m1 = (t2, inr (outputs, m'))
    ∧ t = t1 ++ t2.
Proof.
  induction l1 as [|gpio l1 IH]; intros l2 acc m t outputs m' Hrun.
  { by exists [], acc, m, t. }
  simpl in Hrun. inv_run.
  match goal with
  | Hid : gpio !! ID = Some ?key,
    H1 : configure_relay _ _ = (?tc, inr (?v, ?mc)),
    H2 : output_comprehension _ _ _ = _ |- _ =>
      apply IH in H2 as (t1 & acc1 & m1 & t2 & Hl1 & Hl2 & ->);
      exists (tc ++ t1), acc1, m1, t2; split_and!; [|done|];
      [by rewrite /= /bind /getitem Hid /= H1 Hl1 | by rewrite /= app_assoc]
  end.
Qed.

(** An id that is not configured in [pins] keeps its value. *)
Lemma output_comprehension_frame pins : ∀ acc m t outputs m' k,
  output_comprehension pins acc m = (t, inr (outputs, m')) →
  k ∉ configured_ids pins →
  dict_get outputs k = dict_get acc k.
Proof.
  induction pins as [|gpio pins IH]; intros acc m t outputs m' k Hrun Hk;
    simpl in Hrun; inv_run; [done |].
  match goal with
  | Hid : gpio !! ID = Some ?key, H2 : output_comprehension _ _ _ = _ |- _ =>
      rewrite (configured_ids_cons _ _ _ Hid) in Hk;
      apply not_elem_of_cons in Hk as [Hne Hk];
      rewrite (IH _ _ _ _ _ _ H2 Hk) dict_get_set_ne //
  end.
Qed.

(** The loop over the outputs, event by event. *)
Lemma announce_each_trace discovery prefix l : ∀ m t u m',
  for_each (announce discovery prefix) l m = (t, inr (u, m')) →
  l = map Some (omap (λ out, out) l)
  ∧ t = flat_map (announce_events discovery prefix (_topic_prefix m))
          (omap (λ out, out) l).
Proof.
  induction l as [|out l IH]; intros m t u m' Hrun; simpl in Hrun; inv_run;
    [done |].
  match goal with
  | Ha : announce _ _ _ _ = (?ta, inr (_, ?ma)), Hl : for_each _ _ _ = _ |- _ =>
      assert (∃ d, out = Some d ∧ ma = m
                   ∧ ta = announce_events discovery prefix (_topic_prefix m) d)
        as (d & -> & -> & ->)
  end.
  - match goal with Ha : announce _ _ _ _ = _ |- _ =>
      unfold announce in Ha; inv_run end.
    eexists. split; [done |]. unfold announce_events.
    destruct discovery; inv_run; [|done].
    match goal with Hs : send_ha_autodiscovery _ _ _ _ = _ |- _ =>
      unfold send_ha_autodiscovery in Hs; inv_run end.
    by simplify_eq.
  - match goal with Hr : for_each _ _ _ = _ |- _ =>
      apply IH in Hr as [Hmap ->] end.
    simpl. split; [by rewrite -Hmap | done].
Qed.

Lemma set_tasks_same m : set_tasks (_tasks m) m = m.
Proof. by destruct m. Qed.

(** The collectors are started in order and their tasks recorded. *)
Lemma start_collectors_inr l : ∀ m t u m',
  for_each start_collector l m = (t, inr (u, m')) →
  t = map CreateTask l ∧ m' = set_tasks (_tasks m ++ l) m.
Proof.
  induction l as [|f l IH]; intros m t u m' Hrun; simpl in Hrun; inv_run.
  { by rewrite app_nil_r set_tasks_same. }
  match goal with
  | Hs : start_collector _ _ = _, Hl : for_each _ _ _ = _ |- _ =>
      unfold start_collector in Hs; inv_run;
      apply IH in Hl as [-> ->]
  end.
  split; [done |]. by rewrite /= -app_assoc.
Qed.

Lemma gather_host_data_inr a m t u m' :
  gather_host_data a m = (t, inr (u, m')) →
  t = host_events a
  ∧ m' = if oled a || web a
         then set_tasks (_tasks m ++ host_stats) (set_host_data true m)
         else m.
Proof.
  rewrite /gather_host_data /host_events.
  destruct (oled a || web a); intros Hrun; inv_run; [|done].
  match goal with Hl : for_each start_collector _ _ = _ |- _ =>
    apply start_collectors_inr in Hl as [-> ->] end.
  done.
Qed.

Lemma start_oled_inr a m t u m' :
  start_oled a m = (t, inr (u, m')) →
  t = oled_events a m ∧ m' = if oled a then set_oled true m else m.
Proof.
  rewrite /start_oled /oled_events.
  destruct (oled a); intros Hrun; by inv_run.
Qed.

(** One button per input, in the order of the inputs, on its pin. *)
Lemma buttons_comprehension_inr pins : ∀ m t created m',
  buttons_comprehension pins m = (t, inr (created, m')) →
  m' = m
  ∧ t = zip_with NewButton created pins
  ∧ Forall2 (λ (gpio : input_cfg) pin, in_fields gpio !! PIN = Some pin)
      pins created.
Proof.
  induction pins as [|gpio pins IH]; intros m t created m' Hrun;
    simpl in Hrun; inv_run; [by split_and!; [..|constructor] |].
  match goal with Hl : buttons_comprehension _ _ = _ |- _ =>
    apply IH in Hl as (-> & -> & Hall) end.
  split_and!; [done | by rewrite /= app_nil_r | by constructor].
Qed.

Lemma create_buttons_inr m t u m' :
  create_buttons m = (t, inr (u, m')) →
  ∃ created,
    m' = set_buttons created m
    ∧ t = zip_with NewButton created (_input_pins m)
    ∧ Forall2 (λ (gpio : input_cfg) pin, in_fields gpio !! PIN = Some pin)
        (_input_pins m) created.
Proof.
  unfold create_buttons. intros Hrun. inv_run.
  match goal with Hl : buttons_comprehension _ _ = _ |- _ =>
    apply buttons_comprehension_inr in Hl as (-> & -> & Hall) end.
  eexists. split_and!; [done | by rewrite /= app_nil_r | done].
Qed.

Lemma register_expanders_eq a l :
  mcp23017 a = Some l → register_expanders a = for_each register_expander l.
Proof. unfold register_expanders. intros ->. by destruct l. Qed.

(** The phases of a construction that returned, one run each. *)
Lemma construct_phases a tr m :
  construct a = (tr, inr m) →
  ∃ t1 m1 t2 outputs m2 t3 t4 m4 t5 m5 t6,
    register_expanders a (fresh a) = (t1, inr (tt, m1))
    ∧ output_comprehension (relay_pins a) [] m1 = (t2, inr (outputs, m2))
    ∧ for_each (announce (ha_discovery a) (ha_discovery_prefix a))
        (dict_values outputs) (set_output outputs m2)
      = (t3, inr (tt, set_output outputs m2))
    ∧ create_buttons (set_output outputs m2) = (t4, inr (tt, m4))
    ∧ gather_host_data a m4 = (t5, inr (tt, m5))
    ∧ start_oled a m5 = (t6, inr (tt, m))
    ∧ tr = Log INFO "Initializing manager module." :: NewI2C
             :: t1 ++ t2 ++ t3 ++ t4 ++ t5 ++ t6
             ++ [SendMessage (topic_prefix a +:+ "/" +:+ STATE) (JStr ONLINE);
                 Log INFO "BoneIO manager is ready."].
Proof.
  unfold construct.
  destruct (__init__ a (fresh a)) as [t [e|[u m']]] eqn:Hrun; [done |].
  intros [= <- <-]. unfold __init__ in Hrun. inv_run.
  match goal with Hc : configure_outputs _ _ = _ |- _ =>
    unfold configure_outputs in Hc; inv_run end.
  match goal with
  | Hx : register_expanders _ _ = (?t1, inr (?u1, ?m1)),
    Hc : output_comprehension _ _ _ = (?t2, inr (?outputs, ?m2)),
    Ha : for_each (announce _ _) _ _ = (?ta, inr (?ua, ?ma)),
    Hb : create_buttons _ = (?tb, inr (?ub, ?mb)),
    Hg : gather_host_data _ _ = (?tg, inr (?ug, ?mg)),
    Ho : start_oled _ _ = (?to, inr (?uo, _)) |- _ =>
      pose proof (proj2 (announce_each_inr _ _ _ _ _ _ _ Ha)) as Hsame;
      subst ma; destruct u1, ua, ub, ug, uo;
      exists t1, m1, t2, outputs, m2, ta, tb, mb, tg, mg, to
  end.
  split_and!; try done. by rewrite /= -!app_assoc.
Qed.

(** What the expander phase and the output comprehension leave alone: an
    invariant that holds across the assignments to [_mcp] and
    [_grouped_outputs] holds across these phases. *)
Lemma register_expanders_keeps (I : Manager → Prop) a :
  (∀ v m, I m → I (set_mcp v m)) →
  (∀ v m, I m → I (set_grouped_outputs v m)) →
  emits I (λ _, True) (register_expanders a).
Proof.
  intros Hmcp Hgrp. rewrite /register_expanders /register_expander.
  repeat first [emits_step | case_match]; try done; intros; auto.
Qed.

Lemma output_comprehension_keeps (I : Manager → Prop) pins : ∀ acc,
  (∀ v m, I m → I (set_grouped_outputs v m)) →
  emits I (λ _, True) (output_comprehension pins acc).
Proof.
  intros acc Hgrp. revert acc.
  induction pins as [|gpio pins IH]; intros acc; simpl; [emits_step |].
  apply emits_bind; [emits_step | intros key].
  apply emits_bind; [|intros value; apply IH].
  unfold configure_relay.
  repeat first [emits_step | case_match]; try done; intros; auto.
Qed.

(** The whole trace of a construction that returned, and the attributes of
    the Manager it returned. *)
Lemma construct_anatomy a tr m :
  construct a = (tr, inr m) →
  ∃ t2,
    Forall comprehension_event t2
    ∧ dict_values (output m) = map Some (output_devices m)
    ∧ tr = Log INFO "Initializing manager module." :: NewI2C
             :: flat_map expander_events (default [] (mcp23017 a))
             ++ t2
             ++ flat_map (announce_events (ha_discovery a)
                            (ha_discovery_prefix a) (topic_prefix a))
                  (output_devices m)
             ++ zip_with NewButton (buttons m) (input_pins a)
             ++ host_events a
             ++ oled_events a m
             ++ [SendMessage (topic_prefix a +:+ "/state") (JStr "online");
                 Log INFO "BoneIO manager is ready."]
    ∧ _topic_prefix m = topic_prefix a
    ∧ relay_topic m = topic_prefix a +:+ "/relay/+/set"
    ∧ _input_pins m = input_pins a
    ∧ _oled m = oled a
    ∧ _host_data m = (oled a || web a)
    ∧ _tasks m = (if oled a || web a then host_stats else [])
    ∧ Forall2 (λ (gpio : input_cfg) pin, in_fields gpio !! PIN = Some pin)
        (input_pins a) (buttons m).
Proof.
  intros (t1 & m1 & t2 & outputs & m2 & t3 & t4 & m4 & t5 & m5 & t6
          & Hx & Hc & Ha & Hb & Hg & Ho & ->)%construct_phases.
  set (I := λ m : Manager,
         _oled m = false ∧ _host_data m = false ∧ _tasks m = []
         ∧ relay_topic m = topic_prefix a +:+ "/relay/+/set").
  assert (I m2) as (Holed & Hhost & Htasks & Hrelay).
  { destruct (register_expanders_keeps I a) with (m := fresh a)
      (t := t1) (r := @inr exn _ (tt, m1)) as [_ HI1]; try done.
    destruct (output_comprehension_keeps I (relay_pins a) []) with (m := m1)
      (t := t2) (r := @inr exn _ (outputs, m2)) as [_ HI2]; try done.
    { exact (HI1 _ _ eq_refl). }
    exact (HI2 _ _ eq_refl). }
  pose proof (register_expanders_inr _ _ _ _ Hx) as (-> & Htp1 & Hin1 & _).
  pose proof (output_comprehension_ids _ _ _ _ _ _ Hc) as (Htp2 & Hin2 & _).
  pose proof (output_comprehension_trace _ _ _ _ _ _ Hc) as Ht2.
  apply announce_each_trace in Ha as [Hvalues ->].
  apply create_buttons_inr in Hb as (created & -> & -> & Hpins).
  apply gather_host_data_inr in Hg as [-> ->].
  apply start_oled_inr in Ho as [-> ->].
  exists t2. simpl in *.
  rewrite Hin2 Hin1 in Hpins |- *. rewrite Htp2 Htp1.
  destruct (oled a), (web a); simpl;
    rewrite ?Holed ?Hhost ?Htasks ?Hrelay ?Htp2 ?Htp1 ?Hin2 ?Hin1
      /oled_events /output_devices /=;
    by split_and!.
Qed.
End anatomy.

(** ** What a construction publishes, schedules, starts and constructs *)

Section projections.
Context `{Externals}.
Implicit Types (m : Manager) (a : init_args) (t : list event).

Lemma omap_quiet {B} (f : event → option B) t :
  Forall (λ ev, f ev = None) t → omap f t = [].
Proof.
  induction 1 as [|ev t Hev _ IH]; [done |]. by rewrite /= Hev.
Qed.

Lemma omap_expanders_quiet {B} (f : event → option B) (l : list cfg) :
  (∀ x, f (NewMCP23017 x) = None) → (∀ s, f (Log DEBUG s) = None) →
  (∀ z, f (Sleep z) = None) →
  omap f (flat_map expander_events l) = [].
Proof.
  intros Hmcp Hlog Hsleep. apply omap_quiet.
  induction l as [|mcp l IH]; simpl; [done |].
  apply Forall_app. split; [|done]. unfold expander_events.
  repeat case_match; repeat constructor; auto.
Qed.

Lemma omap_comprehension_quiet {B} (f : event → option B) t :
  (∀ d, f (NewRelay d) = None) → (∀ s, f (Log ERROR s) = None) →
  Forall comprehension_event t → omap f t = [].
Proof.
  intros Hnew Hlog Ht. apply omap_quiet.
  eapply Forall_impl; [exact Ht |]. by intros ev [[d ->] | ->].
Qed.

Lemma omap_buttons_quiet {B} (f : event → option B) pins (l : list input_cfg) :
  (∀ pin gpio, f (NewButton pin gpio) = None) →
  omap f (zip_with NewButton pins l) = [].
Proof.
  intros Hf. revert l.
  induction pins as [|pin pins IH]; intros [|gpio l]; simpl; try done.
  by rewrite Hf.
Qed.

Lemma omap_host_quiet {B} (f : event → option B) a :
  f NewHostData = None → (∀ c, f (CreateTask c) = None) →
  (∀ s, f (Log DEBUG s) = None) →
  omap f (host_events a) = [].
Proof.
  intros Hhost Htask Hlog. apply omap_quiet. unfold host_events.
  destruct (oled a || web a); [|done].
  constructor; [done |]. apply Forall_app. split; [|by repeat constructor].
  apply Forall_map. by apply Forall_true.
Qed.

Lemma omap_oled_quiet {B} (f : event → option B) a m :
  (∀ groups, f (NewOled groups) = None) → omap f (oled_events a m) = [].
Proof. intros Hf. unfold oled_events. destruct (oled a); by rewrite /= ?Hf. Qed.

Lemma omap_announce_quiet {B} (f : event → option B) discovery prefix tp l :
  (∀ s, f (Log DEBUG s) = None) → (∀ topic msg, f (SendMessage topic msg) = None) →
  (∀ ms d op, f (CallLater ms d op) = None) →
  omap f (flat_map (announce_events discovery prefix tp) l) = [].
Proof.
  intros Hlog Hsend Hcall. apply omap_quiet.
  induction l as [|d l IH]; simpl; [done |].
  apply Forall_app. split; [|done]. unfold announce_events.
  destruct discovery; repeat constructor; auto.
Qed.

(** The projection of the trace of a construction, phase by phase. *)
Lemma construct_projection {B} (f : event → option B) a tr m :
  construct a = (tr, inr m) →
  ∃ t2,
    Forall comprehension_event t2
    ∧ omap f tr
      = omap f [Log INFO "Initializing manager module."; NewI2C]
        ++ omap f (flat_map expander_events (default [] (mcp23017 a)))
        ++ omap f t2
        ++ omap f (flat_map (announce_events (ha_discovery a)
                               (ha_discovery_prefix a) (topic_prefix a))
                     (output_devices m))
        ++ omap f (zip_with NewButton (buttons m) (input_pins a))
        ++ omap f (host_events a)
        ++ omap f (oled_events a m)
        ++ omap f [SendMessage (topic_prefix a +:+ "/state") (JStr "online");
                   Log INFO "BoneIO manager is ready."].
Proof.
  intros (t2 & Ht2 & _ & -> & _)%construct_anatomy. exists t2.
  split; [done |].
  change (?x :: ?y :: ?l) with ([x; y] ++ l) at 1.
  by rewrite !omap_app.
Qed.
End projections.

(** Dropping the phases a projection does not see. *)
Ltac project :=
  try (rewrite omap_expanders_quiet; [done.. |]);
  try (match goal with
       | Ht : Forall comprehension_event ?t |- _ =>
           rewrite (omap_comprehension_quiet _ t); [done.. |]
       end);
  try (rewrite omap_announce_quiet; [done.. |]);
  try (rewrite omap_buttons_quiet; [done.. |]);
  try (rewrite omap_host_quiet; [done.. |]);
  try (rewrite omap_oled_quiet; [done.. |]);
  rewrite /= ?app_nil_r.

Section startup.
Context `{Externals}.
Implicit Types (m : Manager) (a : init_args) (t : list event).

(** X1.  The messages a construction that returns has published are, in
    this order: when autodiscovery is on, one descriptor per device of the
    output mapping, in the order of the mapping, on the discovery topic of
    its type; then "online" on the status topic.  Nothing else. *)
Theorem construct_publishes a tr m :
  construct a = (tr, inr m) →
  omap published tr
  = (if ha_discovery a
     then map (λ d, (discovery_topic (ha_discovery_prefix a) (topic_prefix a)
                       (dev_ha_type d),
                     ha_availibilty_message (topic_prefix a) (dev_id d)))
            (output_devices m)
     else [])
    ++ [(topic_prefix a +:+ "/state", JStr "online")].
Proof.
  intros Hrun.
  destruct (construct_projection published _ _ _ Hrun) as (t2 & Ht2 & ->).
  project. f_equal.
  induction (output_devices m) as [|d l IH]; [by destruct (ha_discovery a) |].
  rewrite /= omap_app IH /announce_events. by destruct (ha_discovery a).
Qed.

(** X2.  A construction that returns has scheduled exactly one
    [send_state] per device of the output mapping, in the order of the
    mapping, each after 0.5 s; it has scheduled nothing else. *)
Theorem construct_schedules a tr m :
  construct a = (tr, inr m) →
  omap scheduled tr = map (λ d, (500%Z, d, send_state)) (output_devices m).
Proof.
  intros Hrun.
  destruct (construct_projection scheduled _ _ _ Hrun) as (t2 & Ht2 & ->).
  project.
  induction (output_devices m) as [|d l IH]; [done |].
  rewrite /= omap_app IH /announce_events. by destruct (ha_discovery a).
Qed.

(** X3.  [get_tasks] of a constructed Manager gives one task per host
    collector, in the order of the collectors, when the display or the web
    interface is enabled, and no task otherwise; these are the tasks the
    construction has started. *)
Theorem construct_tasks a tr m :
  construct a = (tr, inr m) →
  get_tasks m = (if oled a || web a then host_stats else [])
  ∧ omap started tr = get_tasks m.
Proof.
  intros Hrun.
  pose proof (construct_anatomy _ _ _ Hrun)
    as (_ & _ & _ & _ & _ & _ & _ & _ & _ & Htasks & _).
  destruct (construct_projection started _ _ _ Hrun) as (t2 & Ht2 & ->).
  rewrite /get_tasks Htasks. split; [done |]. project.
  unfold host_events. destruct (oled a || web a); [|done].
  assert (∀ l, omap started (map CreateTask l) = l) as Hl.
  { induction l as [|f l IH]; [done |]. csimpl. by rewrite IH. }
  change (NewHostData :: ?l) with ([NewHostData] ++ l).
  by rewrite !omap_app Hl /= app_nil_r.
Qed.

(** X4.  The display is constructed exactly when [oled] is set, once, with
    the names of the output groups in the order of their registration; and
    [_host_data_callback] of the constructed Manager forwards its argument
    to the display exactly when [oled] is set, doing nothing otherwise. *)
Theorem construct_display a tr m :
  construct a = (tr, inr m) →
  omap oled_made tr
  = (if oled a then [dict_keys (_grouped_outputs m)] else [])
  ∧ ∀ type, call (_host_data_callback type) m
            = (if oled a then [OledUpdate type] else [], None).
Proof.
  intros Hrun.
  pose proof (construct_anatomy _ _ _ Hrun)
    as (_ & _ & _ & _ & _ & _ & _ & Holed & _).
  destruct (construct_projection oled_made _ _ _ Hrun) as (t2 & Ht2 & ->).
  split.
  - project. unfold oled_events. by destruct (oled a).
  - intros type. rewrite /call /_host_data_callback /bind /self /= Holed.
    by destruct (oled a).
Qed.

(** X5.  A construction that returns has constructed one button per input
    configuration, in the order of the inputs, each on the pin of its
    configuration and with the configuration as [rest_pin]. *)
Theorem construct_buttons a tr m :
  construct a = (tr, inr m) →
  omap button_made tr = zip (buttons m) (input_pins a)
  ∧ Forall2 (λ (gpio : input_cfg) pin, in_fields gpio !! PIN = Some pin)
      (input_pins a) (buttons m).
Proof.
  intros Hrun.
  pose proof (construct_anatomy _ _ _ Hrun)
    as (_ & _ & _ & _ & _ & _ & _ & _ & _ & _ & Hpins).
  destruct (construct_projection button_made _ _ _ Hrun) as (t2 & Ht2 & ->).
  split; [|done]. project. clear.
  generalize (input_pins a). induction (buttons m) as [|pin pins IH];
    intros [|gpio l]; csimpl; try done.
  by rewrite IH.
Qed.

(** X6.  A construction never operates a device or the display: its trace
    has no call of [turn_on], [turn_off], [toggle] or [send_state] on a
    device and no display update. *)
Theorem construct_operates_nothing a tr m :
  construct a = (tr, inr m) → omap operated tr = [].
Proof.
  intros Hrun.
  destruct (construct_projection operated _ _ _ Hrun) as (t2 & Ht2 & ->).
  by project.
Qed.
End startup.

(** ** The output mapping of a constructed Manager *)

Section dict_order.
Context {V : Type}.
Implicit Types (d : odict V) (k : pyval) (v : V).

(** Assigning to a key that is present keeps the keys; a new key goes to
    the end. *)
Lemma dict_keys_set d k v :
  dict_keys (dict_set d k v)
  = if decide (k ∈ dict_keys d) then dict_keys d else dict_keys d ++ [k].
Proof.
  induction d as [|[k' v'] d IH].
  { case_decide as Hin; [by apply elem_of_nil in Hin | done]. }
  change (dict_keys ((k', v') :: d)) with (k' :: dict_keys d).
  change (dict_set ((k', v') :: d) k v)
    with (if decide (k = k') then (k', v) :: d else (k', v') :: dict_set d k v).
  destruct (decide (k = k')) as [->|Hne].
  { rewrite decide_True //. by apply list_elem_of_here. }
  change (dict_keys ((k', v') :: dict_set d k v))
    with (k' :: dict_keys (dict_set d k v)).
  rewrite IH. destruct (decide (k ∈ dict_keys d)) as [Hin|Hout].
  - rewrite decide_True //. by apply list_elem_of_further.
  - rewrite decide_False //. by intros [?|?]%elem_of_cons.
Qed.

Lemma dict_set_NoDup d k v :
  NoDup (dict_keys d) → NoDup (dict_keys (dict_set d k v)).
Proof.
  intros Hnd. rewrite dict_keys_set. case_decide as Hin; [done |].
  apply NoDup_app. split_and!; [done | | apply NoDup_singleton].
  intros k' Hk' ->%list_elem_of_singleton. done.
Qed.

Lemma dict_set_Forall (P : pyval * V → Prop) d k v :
  Forall P d → P (k, v) → Forall P (dict_set d k v).
Proof.
  intros Hd Hkv. induction Hd as [|[k' v'] d Hk' Hd IH]; simpl.
  { by repeat constructor. }
  case_decide as Heq; [subst k'|]; by constructor.
Qed.

(** With distinct keys, an entry of the list is what the key gives. *)
Lemma dict_get_entry d k v :
  NoDup (dict_keys d) → (k, v) ∈ d → dict_get d k = Some v.
Proof.
  induction d as [|[k' v'] d IH]; simpl; [by intros _ ?%elem_of_nil |].
  intros [Hout Hnd]%NoDup_cons [[= -> ->]|Hin]%elem_of_cons.
  { by rewrite decide_True. }
  rewrite decide_False; [|by apply IH].
  intros ->. apply Hout. unfold dict_keys.
  by apply (list_elem_of_fmap_2 fst _ (k', v)).
Qed.
End dict_order.

Section output_mapping.
Context `{Externals}.
Implicit Types (m : Manager) (a : init_args) (gpio : cfg) (d : OutputDevice)
  (k : pyval).

(** The comprehension keeps the keys distinct and every device under its
    own id. *)
Lemma output_comprehension_entries pins : ∀ acc m t outputs m',
  output_comprehension pins acc m = (t, inr (outputs, m')) →
  NoDup (dict_keys acc) →
  Forall (λ kv, ∀ d, kv.2 = Some d → dev_id d = kv.1) acc →
  NoDup (dict_keys outputs)
  ∧ Forall (λ kv, ∀ d, kv.2 = Some d → dev_id d = kv.1) outputs.
Proof.
  induction pins as [|gpio pins IH]; intros acc m t outputs m' Hrun Hnd Hall;
    simpl in Hrun; inv_run; [done |].
  match goal with
  | Hid : gpio !! ID = Some ?key,
    H1 : configure_relay _ _ = (_, inr (?v, _)),
    H2 : output_comprehension _ _ _ = _ |- _ =>
      apply IH in H2; [done | by apply dict_set_NoDup |];
      apply dict_set_Forall; [done |];
      apply configure_relay_inr in H1 as (_ & _ & _ & _ & Hv);
      intros d Hd; simpl in Hd; subst v;
      destruct Hv as (relay_id & group & Hid' & _ & Hdev & _)
  end.
  simpl. congruence.
Qed.

(** With distinct ids the keys of the mapping are the configured ids, in
    the order of the configuration. *)
Lemma output_comprehension_keys pins : ∀ acc m t outputs m',
  output_comprehension pins acc m = (t, inr (outputs, m')) →
  NoDup (dict_keys acc ++ configured_ids pins) →
  dict_keys outputs = dict_keys acc ++ configured_ids pins.
Proof.
  induction pins as [|gpio pins IH]; intros acc m t outputs m' Hrun Hnd;
    simpl in Hrun; inv_run; [by rewrite /= app_nil_r |].
  match goal with
  | Hid : gpio !! ID = Some ?key, H2 : output_comprehension _ _ _ = _ |- _ =>
      rewrite (configured_ids_cons _ _ _ Hid) in Hnd |- *;
      assert (key ∉ dict_keys acc) as Hout
        by (apply NoDup_app in Hnd as (_ & Hdisj & _); intros Hin;
            apply (Hdisj _ Hin), list_elem_of_here);
      apply IH in H2; rewrite dict_keys_set decide_False // -?app_assoc // in H2 |- *
  end.
Qed.

Lemma construct_entries a tr m :
  construct a = (tr, inr m) →
  NoDup (dict_keys (output m))
  ∧ Forall (λ kv, ∃ d, kv.2 = Some d ∧ dev_id d = kv.1) (output m).
Proof.
  intros (t1 & m1 & t2 & outputs & m2 & t3 & _ & Hc & Hsome
          & (_ & _ & _ & ->) & _)%construct_inr.
  apply output_comprehension_entries in Hc as [Hnd Hall];
    [|apply NoDup_nil_2 | done].
  split; [done |].
  rewrite /dict_values Forall_fmap in Hsome.
  rewrite ->Forall_forall in Hsome, Hall |- *. intros [k v] Hkv.
  destruct (Hsome _ Hkv) as [d Hd]. simpl in Hd. subst v.
  exists d. split; [done |]. by apply (Hall _ Hkv).
Qed.

(** The devices of the output mapping, by id. *)
Lemma output_devices_ids a tr m :
  construct a = (tr, inr m) →
  map dev_id (output_devices m) = dict_keys (output m).
Proof.
  intros [_ Hall]%construct_entries. unfold output_devices, dict_values, dict_keys.
  induction Hall as [|[k v] l (d & Hv & Hid) _ IH]; [done |].
  simpl in *. subst v. by rewrite /= Hid IH.
Qed.

(** The value stored under an id is what [configure_relay] returned for
    the last configuration with the id. *)
Lemma output_comprehension_last earlier gpio later relay_id acc m t outputs m' :
  output_comprehension (earlier ++ gpio :: later) acc m
  = (t, inr (outputs, m')) →
  gpio !! ID = Some relay_id →
  relay_id ∉ configured_ids later →
  ∃ ma tc v mb ta tb,
    configure_relay gpio ma = (tc, inr (v, mb))
    ∧ _mcp ma = _mcp m
    ∧ dict_get outputs relay_id = Some v
    ∧ t = ta ++ tc ++ tb.
Proof.
  intros Hc Hid Hlast.
  apply output_comprehension_app in Hc
    as (ta & acc1 & ma & tb & Ha & Hb & ->).
  apply output_comprehension_ids in Ha as (_ & _ & Hmcp & _).
  simpl in Hb. inv_run.
  match goal with
  | Hk : gpio !! ID = Some ?key,
    H1 : configure_relay _ _ = (?tc, inr (?v, ?mb)),
    H2 : output_comprehension _ _ _ = (?tl, _) |- _ =>
      assert (key = relay_id) as -> by congruence;
      pose proof (output_comprehension_frame _ _ _ _ _ _ _ H2 Hlast) as Hget;
      rewrite dict_get_set_eq in Hget;
      exists ma, tc, v, mb, ta, tl
  end.
  by split_and!.
Qed.

(** A device of the output mapping is what its id gives. *)
Lemma output_devices_get a tr m d :
  construct a = (tr, inr m) →
  d ∈ output_devices m → dict_get (output m) (dev_id d) = Some (Some d).
Proof.
  intros [Hnd Hall]%construct_entries Hd. apply dict_get_entry; [done |].
  unfold output_devices, dict_values in Hd.
  apply list_elem_of_omap in Hd as (v' & Hv & Heq).
  apply list_elem_of_fmap in Hv as ([k v] & -> & Hkv).
  rewrite Forall_forall in Hall.
  destruct (Hall _ Hkv) as (d' & Hv' & Hid). simpl in *. by simplify_eq.
Qed.
End output_mapping.

Section mapping_theorems.
Context `{Externals}.
Implicit Types (m : Manager) (a : init_args) (gpio : cfg) (d : OutputDevice)
  (k : pyval).

(** X7.  Of the output configurations with one id the last one wins: the
    output mapping of the constructed Manager holds, under that id, the
    device [configure_relay] constructed for the last configuration with
    the id, which is the device that configuration describes (class, pin,
    with [int] applied for an expander output, type and callback), on the
    handle registered in the expander phase. *)
Theorem construct_last_configuration a tr m earlier gpio later relay_id :
  construct a = (tr, inr m) →
  relay_pins a = earlier ++ gpio :: later →
  gpio !! ID = Some relay_id →
  relay_id ∉ configured_ids later →
  ∃ d, dict_get (output m) relay_id = Some (Some d)
       ∧ described_by (_mcp m) gpio d
       ∧ NewRelay d ∈ tr.
Proof.
  intros (t1 & m1 & t2 & outputs & m2 & t3 & _ & Hc & Hsome
          & (_ & Hmcp & _ & <-) & _ & ->)%construct_inr Hpins Hid Hlast.
  rewrite Hpins in Hc.
  destruct (output_comprehension_last _ _ _ _ _ _ _ _ _ Hc Hid Hlast)
    as (ma & tc & v & mb & ta & tb & Hrun & Hmcp1 & Hget & ->).
  destruct v as [d|]; last first.
  { apply dict_get_values in Hget.
    rewrite Forall_forall in Hsome. by destruct (Hsome _ Hget). }
  apply configure_relay_described in Hrun as [Hdesc ->].
  exists d. rewrite Hmcp -Hmcp1. split_and!; [done.. |].
  clear. set_solver.
Qed.

(** X8.  When the configured output ids are distinct, the keys of the
    output mapping are these ids in the order of the configuration, and so
    are the ids of its devices: the order in which the descriptors are
    published and the state reports scheduled. *)
Theorem construct_output_order a tr m :
  construct a = (tr, inr m) →
  NoDup (configured_ids (relay_pins a)) →
  dict_keys (output m) = configured_ids (relay_pins a)
  ∧ map dev_id (output_devices m) = configured_ids (relay_pins a).
Proof.
  intros Hrun Hnd. rewrite (output_devices_ids _ _ _ Hrun).
  apply construct_inr in Hrun
    as (t1 & m1 & t2 & outputs & m2 & t3 & _ & Hc & _ & (_ & _ & _ & ->) & _).
  by apply output_comprehension_keys in Hc.
Qed.

(** X9.  Descriptor and command handler agree: for a device of the output
    mapping whose id is a string without "/", the [command_topic] of its
    autodiscovery descriptor with the payload [payload_on] makes
    [receive_message] turn on that very device, and with [payload_off]
    turn it off. *)
Theorem descriptor_commands_its_device a tr m d R :
  construct a = (tr, inr m) →
  d ∈ output_devices m →
  dev_id d = VStr R →
  no_slash R →
  ∃ topic on off,
    let msg := ha_availibilty_message (topic_prefix a) (dev_id d) in
    field "command_topic" msg = Some (JStr topic)
    ∧ field "payload_on" msg = Some (JStr on)
    ∧ field "payload_off" msg = Some (JStr off)
    ∧ call (receive_message topic on) m = ([Invoke d turn_on], None)
    ∧ call (receive_message topic off) m = ([Invoke d turn_off], None).
Proof.
  intros Hrun Hd HR Hno.
  pose proof (output_devices_get _ _ _ _ Hrun Hd) as Hget.
  apply construct_inr in Hrun
    as (t1 & m1 & t2 & outputs & m2 & t3 & _ & _ & _ & (Htp & _) & _).
  eexists _, _, _. intros msg. split_and!; [done.. | |].
  - rewrite (receive_message_found _ _ _ d) // Htp HR.
    change (str (VStr R)) with R. by rewrite extracted_relay_command // -HR.
  - rewrite (receive_message_found _ _ _ d) // Htp HR.
    change (str (VStr R)) with R. by rewrite extracted_relay_command // -HR.
Qed.
End mapping_theorems.

(** ** The output groups of a constructed Manager *)

Section groups.
Context `{Externals}.
Implicit Types (m : Manager) (a : init_args) (gpio : cfg) (d : OutputDevice)
  (g k : pyval).

(** The class of a described device goes with the group its callback
    names. *)
Lemma described_by_class handles gpio d :
  described_by handles gpio d →
  dev_class d = GpioRelay ∧ dev_callback d = VStr GPIO
  ∨ ∃ mcp, dev_class d = MCPRelay mcp (dev_callback d)
           ∧ dict_get handles (dev_callback d) = Some mcp.
Proof.
  intros (relay_id & kind & _ & _ & Hd). case_decide.
  - destruct Hd as (mcp & pin & z & ha_type & Hh & _ & _ & _ & ->).
    right. by exists mcp.
  - destruct Hd as (_ & pin & _ & ->). by left.
Qed.

Lemma output_comprehension_registered pins : ∀ acc m t outputs m',
  output_comprehension pins acc m = (t, inr (outputs, m')) →
  (∀ g k d, registered m g k = Some d →
     dev_callback d = g
     ∧ (dev_class d = GpioRelay ∧ g = VStr GPIO
        ∨ ∃ mcp, dev_class d = MCPRelay mcp g
                 ∧ dict_get (_mcp m) g = Some mcp)) →
  ∀ g k d, registered m' g k = Some d →
    dev_callback d = g
    ∧ (dev_class d = GpioRelay ∧ g = VStr GPIO
       ∨ ∃ mcp, dev_class d = MCPRelay mcp g
                ∧ dict_get (_mcp m) g = Some mcp).
Proof.
  induction pins as [|gpio pins IH]; intros acc m t outputs m' Hrun Hinv;
    simpl in Hrun; inv_run; [done |].
  match goal with
  | H1 : configure_relay _ _ = (_, inr (?v, ?mc)),
    H2 : output_comprehension _ _ _ = _ |- _ =>
      pose proof (configure_relay_inr _ _ _ _ _ H1) as (_ & _ & Hmcp & _ & Hv);
      rewrite -Hmcp; apply (IH _ _ _ _ _ H2); rewrite Hmcp;
      intros g k d; destruct v as [d0|]; [|by rewrite Hv; apply Hinv];
      destruct Hv as (relay_id & group & _ & _ & _ & Hcb & ->);
      apply configure_relay_described in H1 as [Hdesc%described_by_class _]
  end.
  case_decide as Heq; [|by apply Hinv].
  destruct Heq as [-> ->]. intros [= <-]. split; [done |].
  by rewrite -Hcb.
Qed.

(** X10.  In a constructed Manager a device registered in an output group
    sits under its own id; it is a [GpioRelay] in the direct group or an
    [MCPRelay] on the handle registered under the name of its group; and
    its callback reports that group: it updates the display with the name
    of the group when there is a display, and does nothing otherwise. *)
Theorem registered_device_group a tr m g k d :
  construct a = (tr, inr m) →
  registered m g k = Some d →
  dev_id d = k
  ∧ (dev_class d = GpioRelay ∧ g = VStr GPIO
     ∨ ∃ mcp, dev_class d = MCPRelay mcp g ∧ dict_get (_mcp m) g = Some mcp)
  ∧ call (_host_data_callback (dev_callback d)) m
    = (if oled a then [OledUpdate g] else [], None).
Proof.
  intros Hrun Hreg.
  pose proof (construct_anatomy _ _ _ Hrun)
    as (_ & _ & _ & _ & _ & _ & _ & Holed & _).
  apply construct_inr in Hrun
    as (t1 & m1 & t2 & outputs & m2 & t3 & Hx & Hc & _
        & (_ & Hmcp & Hgroups & _) & _).
  apply register_expanders_inr in Hx as (_ & _ & _ & _ & _ & _ & Hempty).
  assert (∀ g k, registered m1 g k = None) as Hnone.
  { intros g' k'. unfold registered.
    destruct (dict_get (_grouped_outputs m1) g') as [devices|] eqn:Hg; [|done].
    by rewrite (Hempty _ _ Hg). }
  assert (registered m2 g k = Some d) as Hreg2
    by by rewrite /registered -Hgroups.
  pose proof (output_comprehension_ids _ _ _ _ _ _ Hc)
    as (_ & _ & _ & _ & _ & Hids & _).
  destruct (output_comprehension_registered _ _ _ _ _ _ Hc) with (g := g)
    (k := k) (d := d) as [Hcb Hclass]; [by intros ??? ; rewrite Hnone | done |].
  split_and!.
  - eapply Hids; [|done]. intros ???. by rewrite Hnone.
  - by rewrite Hmcp.
  - rewrite /call /_host_data_callback /bind /self /= Holed Hcb.
    by destruct (oled a).
Qed.
End groups.

(** ** The handlers at their edges *)

Section handlers.
Context `{Externals}.
Implicit Types (m : Manager) (a : init_args) (d : OutputDevice).

(** X11.  [press_callback] with an action for the click kind: an empty
    action is ignored; an action without the [ACTION] key raises
    [KeyError] for that key; an "output" action without the [PIN] key
    raises [KeyError] for that key.  In each case the click has been
    published before. *)
Theorem press_callback_edges m x inpin (actions : action_map) (action : cfg) :
  let publish :=
    SendMessage (_topic_prefix m +:+ "/input/" +:+ inpin) (JStr x) in
  actions !! x = Some action →
  (action = ∅ → call (press_callback x inpin actions) m = ([publish], None))
  ∧ (action ≠ ∅ → action !! ACTION = None →
     call (press_callback x inpin actions) m
     = ([publish], Some (KeyError (VStr ACTION))))
  ∧ (action !! ACTION = Some (VStr OUTPUT) → action !! PIN = None →
     call (press_callback x inpin actions) m
     = ([publish], Some (KeyError (VStr PIN)))).
Proof.
  intros publish Hx. split_and!.
  - intros ->.
    by rewrite /call /press_callback /bind /self /emit /getitem /= Hx.
  - intros Hne Hnone.
    rewrite /call /press_callback /bind /self /emit /getitem /= Hx.
    by rewrite decide_False // Hnone.
  - intros Hkind Hpin.
    rewrite /call /press_callback /bind /self /emit /getitem /= Hx.
    destruct (decide (action = ∅)) as [->|_];
      [by rewrite lookup_empty in Hkind |].
    by rewrite Hkind /= Hpin.
Qed.

(** X12.  [receive_message] does nothing of its own besides at most one
    call of a device: whatever the methods of the devices do, the events of
    a call of [receive_message] are that one device call, [turn_on] for
    the message "ON" and [turn_off] for "OFF" on the device the output
    mapping holds under the extracted id, followed by what that method
    does, and the exception, if any, is the one that method raised; with
    another message, or no device under the id, nothing happens and the
    call returns.  It assigns no attribute of the Manager. *)
Theorem receive_message_quiet (dev : device_model) m topic message :
  ∃ t,
    receive_message topic message m = (t, inr (tt, m))
    ∧ with_devices dev t None
      = match dict_get (output m)
                (VStr (extracted_relay (_topic_prefix m) topic)) with
        | Some (Some d) =>
            if decide (message = "ON")
            then (Invoke d turn_on :: (dev d turn_on).1, (dev d turn_on).2)
            else if decide (message = "OFF")
            then (Invoke d turn_off :: (dev d turn_off).1, (dev d turn_off).2)
            else ([], None)
        | _ => ([], None)
        end.
Proof.
  rewrite /receive_message /bind /self /=.
  destruct (dict_get (output m)
              (VStr (extracted_relay (_topic_prefix m) topic)))
    as [[d|]|]; [|by exists []..].
  destruct (decide (message = "ON")) as [->|Hon].
  { exists [Invoke d turn_on]. split; [done |].
    simpl. destruct (dev d turn_on) as [td [raised|]]; by rewrite /= ?app_nil_r. }
  apply String.eqb_neq in Hon. rewrite Hon.
  destruct (decide (message = "OFF")) as [->|Hoff].
  { exists [Invoke d turn_off]. split; [done |].
    simpl. destruct (dev d turn_off) as [td [raised|]]; by rewrite /= ?app_nil_r. }
  apply String.eqb_neq in Hoff. rewrite Hoff. by exists [].
Qed.
End handlers.

(** ** Constructions that raise *)

Section failures.
Context `{Externals}.
Implicit Types (m : Manager) (a : init_args) (gpio mcp : cfg)
  (d : OutputDevice).

(** The expander loop up to a configuration whose registration raises. *)
Lemma register_each_raises good bad rest e :
  Forall expander_ok good →
  (∀ m, register_expander bad m = ([], inl e)) →
  ∀ m, for_each register_expander (good ++ bad :: rest) m
       = (flat_map expander_events good, inl e).
Proof.
  intros Hgood Hbad.
  induction Hgood as [|mcp good Hok _ IH]; intros m; simpl.
  { by rewrite /bind Hbad. }
  destruct (register_expander_returns mcp m Hok) as (t & [] & m' & Hrun).
  pose proof (register_expander_inr _ _ _ _ _ Hrun)
    as (_ & _ & _ & _ & _ & _ & _ & -> & _).
  by rewrite /bind Hrun IH.
Qed.

Lemma register_expander_key_error bad key m :
  bad !! ID = None ∧ key = ID
  ∨ is_Some (bad !! ID) ∧ bad !! ADDRESS = None ∧ key = ADDRESS →
  register_expander bad m = ([], inl (KeyError (VStr key))).
Proof.
  rewrite /register_expander /bind /getitem.
  intros [[-> ->] | ([named ->] & Haddr & ->)]; [done |].
  simpl. destruct (truthy named); simpl; by rewrite Haddr.
Qed.

(** X13.  An expander configuration without the [ID] key, or with it but
    without the [ADDRESS] key, makes the construction raise [KeyError] for
    that key, after the expanders before it have been registered and
    before any output is configured: nothing is published. *)
Theorem construct_expander_key_error a good bad rest key :
  mcp23017 a = Some (good ++ bad :: rest) →
  Forall expander_ok good →
  bad !! ID = None ∧ key = ID
  ∨ is_Some (bad !! ID) ∧ bad !! ADDRESS = None ∧ key = ADDRESS →
  construct a
  = (Log INFO "Initializing manager module." :: NewI2C
       :: flat_map expander_events good,
     inl (KeyError (VStr key))).
Proof.
  intros Hexp Hgood Hbad.
  rewrite /construct /__init__ /bind /emit (register_expanders_eq _ _ Hexp).
  rewrite (register_each_raises _ _ _ (KeyError (VStr key))) //.
  intros m. by apply register_expander_key_error.
Qed.

Lemma output_comprehension_kinds pins : ∀ acc m t outputs m',
  output_comprehension pins acc m = (t, inr (outputs, m')) →
  Forall (λ gpio, is_Some (gpio !! ID) ∧ is_Some (gpio !! KIND)) pins.
Proof.
  induction pins as [|gpio pins IH]; intros acc m t outputs m' Hrun;
    simpl in Hrun; inv_run; [done |].
  match goal with
  | H1 : configure_relay _ _ = _, H2 : output_comprehension _ _ _ = _ |- _ =>
      apply IH in H2; unfold configure_relay in H1;
      apply bind_inr in H1 as (? & ? & ? & ? & H1 & _);
      apply getitem_inr in H1 as (H1 & _)
  end.
  constructor; [|done]. split; by eexists.
Qed.

(** X14.  A construction returns only if every expander configuration has
    an id or an address to go by, an address, and a settle time that is a
    non-negative number; every output configuration has the [ID] and
    [KIND] keys; and every input configuration has the [PIN] key. *)
Theorem construct_requires a tr m :
  construct a = (tr, inr m) →
  Forall expander_ok (default [] (mcp23017 a))
  ∧ Forall (λ gpio, is_Some (gpio !! ID) ∧ is_Some (gpio !! KIND))
      (relay_pins a)
  ∧ Forall input_ok (input_pins a).
Proof.
  intros Hrun.
  pose proof (construct_anatomy _ _ _ Hrun)
    as (_ & _ & _ & _ & _ & _ & _ & _ & _ & _ & Hpins).
  apply construct_inr in Hrun
    as (t1 & m1 & t2 & outputs & m2 & t3 & Hx & Hc & _).
  apply register_expanders_inr in Hx as (_ & _ & _ & _ & Hexp & _).
  split_and!.
  - apply Forall_forall. intros mcp Hin.
    destruct (Hexp _ Hin) as (id & address & z & Hid & Haddr & Hz & Hpos & _).
    split_and!; [by eexists.. |]. by exists z.
  - by apply output_comprehension_kinds in Hc.
  - clear -Hpins. induction Hpins as [|gpio pin ? ? Hpin _ IH]; [done |].
    constructor; [by eexists | done].
Qed.

(** An output configuration that yields no device, and whose id no later
    configuration takes over, leaves [None] in the output mapping. *)
Lemma configure_relay_handle gpio m t d m' kind :
  configure_relay gpio m = (t, inr (Some d, m')) →
  gpio !! KIND = Some kind →
  kind = VStr GPIO
  ∨ kind = VStr MCP
    ∧ is_Some (dict_get (_mcp m) (default (VStr "") (gpio !! MCP_ID))).
Proof.
  intros [(relay_id & kind' & _ & Hkind & Hd) _]%configure_relay_described Hk.
  assert (kind' = kind) as -> by congruence.
  case_decide as Hmcp; [right | left; by destruct Hd].
  destruct Hd as (mcp & _ & _ & _ & Hh & _). split; [done | by eexists].
Qed.

(** X15.  An output configuration of a kind that is neither of the two
    known kinds, or of the expander kind with an [mcp_id] that no
    configured expander goes by, makes the construction raise, unless a
    later configuration has the same id: the [None] that
    [configure_relay] returns for it is stored in the output mapping, and
    the loop over the mapping reads an attribute of it. *)
Theorem construct_raises_without_device a earlier gpio later relay_id kind :
  relay_pins a = earlier ++ gpio :: later →
  gpio !! ID = Some relay_id →
  relay_id ∉ configured_ids later →
  gpio !! KIND = Some kind →
  kind ≠ VStr GPIO →
  (kind = VStr MCP →
   ∀ mcp, mcp ∈ default [] (mcp23017 a) →
     expander_id mcp ≠ Some (default (VStr "") (gpio !! MCP_ID))) →
  ∃ tr e, construct a = (tr, inl e).
Proof.
  intros Hpins Hid Hlast Hkind Hgpio Hmissing.
  destruct (construct a) as [tr [e|m]] eqn:Hrun; [by eauto |]. exfalso.
  apply construct_inr in Hrun
    as (t1 & m1 & t2 & outputs & m2 & t3 & Hx & Hc & Hsome & _).
  rewrite Hpins in Hc.
  destruct (output_comprehension_last _ _ _ _ _ _ _ _ _ Hc Hid Hlast)
    as (ma & tc & v & mb & ta & tb & Hrun & Hmcp & Hget & _).
  destruct v as [d|]; last first.
  { apply dict_get_values in Hget.
    rewrite Forall_forall in Hsome. by destruct (Hsome _ Hget). }
  destruct (configure_relay_handle _ _ _ _ _ _ Hrun Hkind)
    as [?|[-> [h Hh]]]; [done |].
  rewrite Hmcp in Hh.
  apply register_expanders_inr in Hx as (_ & _ & _ & _ & _ & Hhandles & _).
  destruct (Hhandles _ _ Hh) as (mcp & Hin & Hmcp_id & _).
  by apply (Hmissing eq_refl mcp).
Qed.
End failures.

(** ** What has been published when a construction raises *)

Section unannounced.
Context `{Externals}.
Implicit Types (m : Manager) (a : init_args) (tp : string).

Lemma emits_weaken {A} (I : Manager → Prop) (P Q : event → Prop) (c : M A) :
  (∀ ev, P ev → Q ev) → emits I P c → emits I Q c.
Proof.
  intros HPQ Hc m t r Hm Hrun. destruct (Hc m t r Hm Hrun) as [Ht Hpost].
  split; [by eapply Forall_impl | done].
Qed.

Lemma emits_settled {A} tp (P : event → Prop) (c : M A) :
  (∀ expanders groups outputs, emits (settled tp expanders groups outputs) P c) →
  emits (λ m, _topic_prefix m = tp) P c.
Proof.
  intros Hc m t r Hm Hrun.
  destruct (Hc (_mcp m) (_grouped_outputs m) (output m) m t r) as [Ht Hpost];
    [done.. |].
  split; [done |]. intros x m' Hr. by destruct (Hpost x m' Hr).
Qed.

(** A sequence raises in its first part, or in what follows when the first
    part has returned. *)
Lemma emits_bind_raise {A B} (I : Manager → Prop) (P : event → Prop)
    (c : M A) (k : A → M B) :
  emits I P c →
  (∀ x m t e, I m → k x m = (t, inl e) → Forall P t) →
  ∀ m t e, I m → bind c k m = (t, inl e) → Forall P t.
Proof.
  intros Hc Hk m t e Hm. unfold bind.
  destruct (c m) as [t1 [e1|[x m1]]] eqn:Hrun.
  - intros [= <- <-]. by destruct (Hc _ _ _ Hm Hrun).
  - destruct (k x m1) as [t2 r] eqn:Hrun2. intros [= <- ->].
    destruct (Hc _ _ _ Hm Hrun) as [Ht1 Hpost].
    apply Forall_app. split; [done |].
    eapply Hk; [|done]. by eapply Hpost.
Qed.

Lemma register_expanders_publishes tp a :
  emits (λ m, _topic_prefix m = tp) (publishes_discovery_only tp)
    (register_expanders a).
Proof.
  rewrite /register_expanders /register_expander.
  repeat first [emits_step | case_match]; try done; intros; auto.
Qed.

Lemma configure_outputs_publishes tp a :
  emits (λ m, _topic_prefix m = tp) (publishes_discovery_only tp)
    (configure_outputs a).
Proof.
  unfold configure_outputs. apply emits_bind.
  { eapply emits_weaken; [|apply output_comprehension_emits]. by intros ev [? _]. }
  intros outputs. apply emits_bind; [by apply emits_modify | intros _].
  apply emits_for_each. intros out. apply emits_settled. intros ???.
  eapply emits_weaken; [|apply announce_emits]. by intros ev [[? _] _].
Qed.

(** X16.  When the construction raises, the status "online" has not been
    published: every message published up to the exception is an
    autodiscovery descriptor, none goes to the status topic and none
    carries "online". *)
Theorem construct_raise_unannounced a tr e :
  construct a = (tr, inl e) →
  Forall (publishes_discovery_only (topic_prefix a)) tr
  ∧ ∀ topic payload, SendMessage topic payload ∈ tr →
      topic ≠ topic_prefix a +:+ "/state" ∧ payload ≠ JStr "online".
Proof.
  intros Hrun.
  assert (Forall (publishes_discovery_only (topic_prefix a)) tr) as Hall.
  { unfold construct in Hrun.
    destruct (__init__ a (fresh a)) as [t [e'|[u m']]] eqn:Hinit; [|done].
    injection Hrun as -> ->. revert Hinit. unfold __init__.
    apply (emits_bind_raise (λ m, _topic_prefix m = topic_prefix a));
      [by emits_step | intros _ | done].
    apply emits_bind_raise; [by emits_step | intros _].
    apply emits_bind_raise; [apply register_expanders_publishes | intros _].
    apply emits_bind_raise; [apply configure_outputs_publishes | intros _].
    apply emits_bind_raise; [|intros _].
    { apply emits_settled. intros ???.
      eapply emits_weaken; [|apply create_buttons_emits]. by intros ev [[? _] _]. }
    apply emits_bind_raise; [|intros _].
    { apply emits_settled. intros ???.
      eapply emits_weaken; [|apply gather_host_data_emits].
      by intros ev [[? _] _]. }
    apply emits_bind_raise; [|intros _].
    { apply emits_settled. intros ???.
      eapply emits_weaken; [|apply start_oled_emits]. by intros ev [[? _] _]. }
    intros m t e' _. by rewrite /bind /emit /=. }
  split; [done |]. intros topic payload Hin. rewrite Forall_forall in Hall.
  destruct (Hall _ Hin) as (relay & prefix & ha_type & -> & ->).
  split; [apply discovery_topic_not_state | done].
Qed.
End unannounced.

(** ** Inputs, subscription topic, and the whole trace *)

Section wiring.
Context `{Externals}.
Implicit Types (m : Manager) (a : init_args) (d : OutputDevice).

(** X17.  The [press_callback] closures of the buttons read the loop
    variable of the comprehension when they are called, after the
    comprehension is over: every one of the buttons, one per input, then
    runs [press_callback] with the actions of the last input
    configuration, and raises [KeyError] when that configuration has no
    [ACTIONS] key, whatever its own configuration says. *)
Theorem buttons_share_last_actions a tr m earlier gpio x i :
  construct a = (tr, inr m) →
  input_pins a = earlier ++ [gpio] →
  length (buttons m) = S (length earlier)
  ∧ (∀ actions, in_actions gpio = Some actions →
       button_press_callback x i m = press_callback x i actions m)
  ∧ (in_actions gpio = None →
     call (button_press_callback x i) m = ([], Some (KeyError (VStr ACTIONS)))).
Proof.
  intros Hrun Hpins.
  pose proof (construct_anatomy _ _ _ Hrun)
    as (_ & _ & _ & _ & _ & _ & Hin & _ & _ & _ & Hall).
  split_and!.
  - rewrite -(Forall2_length _ _ _ Hall) Hpins length_app /=. lia.
  - intros actions Hactions.
    rewrite /button_press_callback /bind /self /= Hin Hpins last_snoc Hactions.
    by destruct (press_callback x i actions m) as [t r].
  - intros Hnone.
    by rewrite /call /button_press_callback /bind /self /= Hin Hpins last_snoc
      Hnone.
Qed.

(** X18.  The subscription topic of a constructed Manager is
    [{topic-prefix}/relay/+/set], and the [command_topic] of the
    descriptor of any relay id is that topic with the id in the place of
    the wildcard. *)
Theorem relay_topic_covers_commands a tr m relay_id :
  construct a = (tr, inr m) →
  relay_topic m = topic_prefix a +:+ "/relay/" +:+ "+" +:+ "/set"
  ∧ field "command_topic" (ha_availibilty_message (_topic_prefix m) relay_id)
    = Some (JStr (topic_prefix a +:+ "/relay/" +:+ str relay_id +:+ "/set")).
Proof.
  intros (_ & _ & _ & _ & Htp & Hrelay & _)%construct_anatomy.
  by rewrite Hrelay /= Htp.
Qed.

(** X19.  The whole trace of a construction that returns, phase by phase:
    the opening log line and the bus; the expanders, one after the other;
    the output comprehension, which constructs devices or logs missing
    expanders; for each device of the mapping its descriptor, when
    autodiscovery is on, directly followed by the scheduling of its state
    report; the buttons; the host data with its collectors; the display;
    "online"; the closing log line. *)
Theorem construct_trace a tr m :
  construct a = (tr, inr m) →
  ∃ t2,
    Forall comprehension_event t2
    ∧ tr = Log INFO "Initializing manager module." :: NewI2C
             :: flat_map expander_events (default [] (mcp23017 a))
             ++ t2
             ++ flat_map (announce_events (ha_discovery a)
                            (ha_discovery_prefix a) (topic_prefix a))
                  (output_devices m)
             ++ zip_with NewButton (buttons m) (input_pins a)
             ++ host_events a
             ++ oled_events a m
             ++ [SendMessage (topic_prefix a +:+ "/state") (JStr "online");
                 Log INFO "BoneIO manager is ready."].
Proof.
  intros (t2 & Ht2 & _ & -> & _)%construct_anatomy. by exists t2.
Qed.
End wiring.

(** ** The names of the output groups *)

#[local] Set Warnings "-clear-no-such-hyp".

Section group_names.
Context `{Externals}.
Implicit Types (m : Manager) (a : init_args) (gpio mcp : cfg) (g : pyval).

Lemma dict_get_keys {V} (d : odict V) k :
  is_Some (dict_get d k) ↔ k ∈ dict_keys d.
Proof.
  induction d as [|[k' v] d IH]; simpl.
  { split; [intros [v Hv]; discriminate | intros Hin; by apply elem_of_nil in Hin]. }
  rewrite elem_of_cons -IH. case_decide; naive_solver.
Qed.

Lemma dict_set_names {V} (d : odict V) k v g :
  is_Some (dict_get (dict_set d k v) g) ↔ g = k ∨ is_Some (dict_get d g).
Proof. rewrite dict_get_set. case_decide; naive_solver. Qed.

(** The expander loop gives handles and groups the same names. *)
Lemma register_each_names l : ∀ m t u m',
  for_each register_expander l m = (t, inr (u, m')) →
  (∀ g, is_Some (dict_get (_grouped_outputs m) g)
        ↔ is_Some (dict_get (_mcp m) g)) →
  ∀ g, is_Some (dict_get (_grouped_outputs m') g)
       ↔ is_Some (dict_get (_mcp m') g).
Proof.
  induction l as [|mcp l IH]; intros m t u m' Hrun Hsame; simpl in Hrun.
  { by inv_run. }
  apply bind_inr in Hrun as (t1 & [] & m1 & t2 & Hone & Hrest & ->).
  apply (IH _ _ _ _ Hrest).
  apply register_expander_inr in Hone
    as (id & address & z & _ & _ & _ & _ & _ & ->).
  intros g. by rewrite /= !dict_set_names Hsame.
Qed.

(** A direct output is one of the direct kind that is not taken for the
    expander kind first. *)
Lemma configure_relay_names gpio m t v m' g :
  configure_relay gpio m = (t, inr (v, m')) →
  is_Some (dict_get (_grouped_outputs m') g)
  ↔ is_Some (dict_get (_grouped_outputs m) g)
    ∨ g = VStr GPIO ∧ gpio !! KIND = Some (VStr GPIO) ∧ GPIO ≠ MCP.
Proof.
  unfold configure_relay. intros Hrun. inv_run.
  match goal with Hk : gpio !! KIND = Some ?kind |- _ =>
    rename Hk into Hkind; rename kind into kd end.
  destruct (decide (kd = VStr MCP)) as [->|Hmcp].
  - inv_run.
    destruct (dict_get (_mcp m) (default (VStr "") (gpio !! MCP_ID)))
      as [mcp|] eqn:Hh; inv_run; simpl.
    + rewrite dict_set_names. split; [intros [->|?]; [left; by eexists | by left] |].
      intros [?|(_ & ? & Hne)]; [by right | congruence].
    + split; [by left |]. intros [?|(_ & ? & Hne)]; [done | congruence].
  - destruct (decide (kd = VStr GPIO)) as [->|Hgpio]; inv_run; simpl.
    + match goal with
      | Hc : (if dict_in _ _ then _ else _) _ = (_, inr (_, ?m0)) |- _ =>
          assert (∀ g, is_Some (dict_get (_grouped_outputs m0) g)
                       ↔ g = VStr GPIO ∨ is_Some (dict_get (_grouped_outputs m) g))
            as Hnames
      end.
      { intros g'.
        destruct (dict_in (VStr GPIO) (_grouped_outputs m)) eqn:Hi; inv_run.
        - apply dict_in_spec in Hi. naive_solver.
        - by rewrite /= dict_set_names. }
      rewrite dict_set_names Hnames.
      assert (GPIO ≠ MCP) by congruence. naive_solver.
    + split; [by left |]. intros [?|(_ & ? & _)]; [done | congruence].
Qed.

Lemma output_comprehension_names pins : ∀ acc m t outputs m' g,
  output_comprehension pins acc m = (t, inr (outputs, m')) →
  is_Some (dict_get (_grouped_outputs m') g)
  ↔ is_Some (dict_get (_grouped_outputs m) g)
    ∨ g = VStr GPIO
      ∧ ∃ gpio, gpio ∈ pins ∧ gpio !! KIND = Some (VStr GPIO) ∧ GPIO ≠ MCP.
Proof.
  induction pins as [|gpio pins IH]; intros acc m t outputs m' g Hrun;
    simpl in Hrun; inv_run.
  { split; [by left |]. by intros [?|(_ & ? & ?%elem_of_nil & _)]. }
  match goal with
  | H1 : configure_relay _ _ = _, H2 : output_comprehension _ _ _ = _ |- _ =>
      rewrite (IH _ _ _ _ _ _ H2) (configure_relay_names _ _ _ _ _ _ H1)
  end.
  setoid_rewrite elem_of_cons. naive_solver.
Qed.

(** X20.  The output groups of a constructed Manager, which are the groups
    the display is constructed with, are named after the configured
    expanders (by id, or by address without one), plus the direct group
    when an output of the direct kind is configured; the direct group is
    created with the first such output and not before.  There is no other
    group. *)
Theorem construct_group_names a tr m g :
  construct a = (tr, inr m) →
  g ∈ dict_keys (_grouped_outputs m)
  ↔ (∃ mcp, mcp ∈ default [] (mcp23017 a) ∧ expander_id mcp = Some g)
    ∨ g = VStr GPIO
      ∧ ∃ gpio, gpio ∈ relay_pins a
                ∧ gpio !! KIND = Some (VStr GPIO) ∧ GPIO ≠ MCP.
Proof.
  intros (t1 & m1 & t2 & outputs & m2 & t3 & Hx & Hc & _
          & (_ & _ & -> & _) & _)%construct_inr.
  rewrite -dict_get_keys (output_comprehension_names _ _ _ _ _ _ _ Hc).
  assert (is_Some (dict_get (_grouped_outputs m1) g)
          ↔ ∃ mcp, mcp ∈ default [] (mcp23017 a) ∧ expander_id mcp = Some g)
    as ->; [|done].
  pose proof (register_expanders_inr _ _ _ _ Hx)
    as (_ & _ & _ & _ & Hreg & Hhandles & _).
  assert (∀ g, is_Some (dict_get (_grouped_outputs m1) g)
               ↔ is_Some (dict_get (_mcp m1) g)) as Hsame.
  { unfold register_expanders in Hx.
    destruct (mcp23017 a) as [[|mcp l]|];
      [inv_run; intros ?; split; intros [? [=]] |
      | inv_run; intros ?; split; intros [? [=]]].
    apply (register_each_names _ _ _ _ _ Hx).
    intros ?; split; intros [? [=]]. }
  split.
  - intros [h Hh]%Hsame. destruct (Hhandles _ _ Hh) as (mcp & ? & ? & _).
    by exists mcp.
  - intros (mcp & Hin & Hid).
    destruct (Hreg _ Hin) as (id & _ & _ & Hid' & _ & _ & _ & _ & Hgroup).
    assert (id = g) as -> by congruence. by eexists.
Qed.
End group_names.

(** ** The further theorems at work on the sample boards *)

Section further_witnesses.
Local Existing Instance Sample.externals.

Local Abbreviation board := Sample.board.
Local Abbreviation m0 := (Sample.manager_of Sample.board).
Local Abbreviation tr0 := ((construct Sample.board).1).
Local Abbreviation panel := Sample.panel.
Local Abbreviation mp := (Sample.manager_of Sample.panel).
Local Abbreviation trp := ((construct Sample.panel).1).

Lemma construct_publishes_witness :
  construct panel = (trp, inr mp)
  ∧ map fst (omap published trp)
    = ["homeassistant/light/home1/light/config";
       "homeassistant/switch/home1/switch/config"; "home1/state"].
Proof.
  assert (construct panel = (trp, inr mp)) as Hrun by (vm_compute; reflexivity).
  split; [done |].
  rewrite (construct_publishes panel trp mp Hrun). vm_compute. reflexivity.
Defined.

Lemma construct_schedules_witness :
  construct panel = (trp, inr mp)
  ∧ omap scheduled trp
    = [(500%Z, Sample.R1, send_state); (500%Z, Sample.R2, send_state)].
Proof.
  assert (construct panel = (trp, inr mp)) as Hrun by (vm_compute; reflexivity).
  split; [done |].
  rewrite (construct_schedules panel trp mp Hrun). vm_compute. reflexivity.
Defined.

Lemma construct_tasks_witness :
  construct panel = (trp, inr mp)
  ∧ get_tasks mp = ["cpu"; "memory"]
  ∧ omap started trp = get_tasks mp.
Proof.
  assert (construct panel = (trp, inr mp)) as Hrun by (vm_compute; reflexivity).
  split; [done |]. exact (construct_tasks panel trp mp Hrun).
Defined.

Lemma construct_display_witness :
  construct panel = (trp, inr mp)
  ∧ omap oled_made trp = [[VStr "mcp1"; VInt 33; VStr "gpio"]]
  ∧ call (_host_data_callback (VStr "gpio")) mp = ([OledUpdate (VStr "gpio")], None).
Proof.
  assert (construct panel = (trp, inr mp)) as Hrun by (vm_compute; reflexivity).
  split; [done |].
  destruct (construct_display panel trp mp Hrun) as [Hmade Hcall].
  split; [|exact (Hcall (VStr "gpio"))].
  rewrite Hmade. vm_compute. reflexivity.
Defined.

Lemma construct_buttons_witness :
  construct panel = (trp, inr mp)
  ∧ omap button_made trp = zip (buttons mp) (input_pins panel).
Proof.
  assert (construct panel = (trp, inr mp)) as Hrun by (vm_compute; reflexivity).
  split; [done |]. exact (proj1 (construct_buttons panel trp mp Hrun)).
Defined.

Lemma construct_operates_nothing_witness :
  construct panel = (trp, inr mp) ∧ omap operated trp = [].
Proof.
  assert (construct panel = (trp, inr mp)) as Hrun by (vm_compute; reflexivity).
  split; [done |]. exact (construct_operates_nothing panel trp mp Hrun).
Defined.

Lemma construct_last_configuration_witness :
  let mt := Sample.manager_of Sample.twice in
  let trt := (construct Sample.twice).1 in
  construct Sample.twice = (trt, inr mt)
  ∧ relay_pins Sample.twice
    = [Sample.expander_relay "R1" "mcp1"] ++ [Sample.direct_relay "R1"]
  ∧ Sample.direct_relay "R1" !! ID = Some (VStr "R1")
  ∧ (VStr "R1" ∉ configured_ids [])
  ∧ ∃ d, dict_get (output mt) (VStr "R1") = Some (Some d)
         ∧ described_by (_mcp mt) (Sample.direct_relay "R1") d.
Proof.
  intros mt trt.
  assert (construct Sample.twice = (trt, inr mt)) as Hrun
    by (vm_compute; reflexivity).
  assert (Sample.direct_relay "R1" !! ID = Some (VStr "R1")) as Hid
    by (vm_compute; reflexivity).
  assert (VStr "R1" ∉ configured_ids []) as Hlast by apply not_elem_of_nil.
  split_and!; [done.. |].
  destruct (construct_last_configuration Sample.twice trt mt
              [Sample.expander_relay "R1" "mcp1"] (Sample.direct_relay "R1") []
              (VStr "R1") Hrun eq_refl Hid Hlast) as (d & Hget & Hdesc & _).
  by exists d.
Defined.

Lemma construct_output_order_witness :
  construct board = (tr0, inr m0)
  ∧ NoDup (configured_ids (relay_pins board))
  ∧ map dev_id (output_devices m0) = [VStr "R1"; VStr "R2"].
Proof.
  assert (construct board = (tr0, inr m0)) as Hrun by (vm_compute; reflexivity).
  assert (NoDup (configured_ids (relay_pins board))) as Hnd.
  { apply (bool_decide_unpack _). vm_compute. exact I. }
  split_and!; [done.. |].
  rewrite (proj2 (construct_output_order board tr0 m0 Hrun Hnd)).
  vm_compute. reflexivity.
Defined.

Lemma descriptor_commands_its_device_witness :
  construct board = (tr0, inr m0)
  ∧ Sample.R1 ∈ output_devices m0
  ∧ dev_id Sample.R1 = VStr "R1"
  ∧ no_slash "R1"
  ∧ ∃ topic on,
      field "command_topic" (ha_availibilty_message "home1" (VStr "R1"))
      = Some (JStr topic)
      ∧ call (receive_message topic on) m0 = ([Invoke Sample.R1 turn_on], None).
Proof.
  assert (construct board = (tr0, inr m0)) as Hrun by (vm_compute; reflexivity).
  assert (Sample.R1 ∈ output_devices m0) as Hin.
  { assert (output_devices m0 = [Sample.R1; Sample.R2]) as ->
      by (vm_compute; reflexivity).
    apply list_elem_of_here. }
  assert (no_slash "R1") as Hno by (vm_compute; reflexivity).
  split_and!; [done.. |].
  destruct (descriptor_commands_its_device board tr0 m0 Sample.R1 "R1"
              Hrun Hin eq_refl Hno)
    as (topic & on & off & Htopic & _ & _ & Hon & _).
  by exists topic, on.
Defined.

Lemma registered_device_group_witness :
  construct panel = (trp, inr mp)
  ∧ registered mp (VStr "gpio") (VStr "R2") = Some Sample.R2
  ∧ call (_host_data_callback (dev_callback Sample.R2)) mp
    = ([OledUpdate (VStr "gpio")], None).
Proof.
  assert (construct panel = (trp, inr mp)) as Hrun by (vm_compute; reflexivity).
  assert (registered mp (VStr "gpio") (VStr "R2") = Some Sample.R2) as Hreg
    by (vm_compute; reflexivity).
  split_and!; [done.. |].
  exact (proj2 (proj2 (registered_device_group panel trp mp _ _ _ Hrun Hreg))).
Defined.

Lemma press_callback_edges_witness :
  let action : cfg := {[ "action" := VStr "output" ]} in
  let actions : action_map := {[ "single" := action ]} in
  actions !! "single" = Some action
  ∧ call (press_callback "single" "P9_1" actions) m0
    = ([SendMessage "home1/input/P9_1" (JStr "single")],
       Some (KeyError (VStr "pin"))).
Proof.
  intros action actions.
  assert (actions !! "single" = Some action) as Hx by (vm_compute; reflexivity).
  split; [done |].
  destruct (press_callback_edges m0 "single" "P9_1" actions action Hx)
    as (_ & _ & Hpin).
  apply Hpin; vm_compute; reflexivity.
Defined.

Lemma sample_expander_ok : expander_ok Sample.mcp1.
Proof.
  split_and!; [vm_compute; eauto.. |].
  exists 2%Z. split; [vm_compute; reflexivity | lia].
Qed.

Lemma construct_expander_key_error_witness :
  mcp23017 Sample.faulty = Some ([Sample.mcp1] ++ [{[ "address" := VInt 34 ]}])
  ∧ Forall expander_ok [Sample.mcp1]
  ∧ construct Sample.faulty
    = (Log INFO "Initializing manager module." :: NewI2C
         :: flat_map expander_events [Sample.mcp1],
       inl (KeyError (VStr "id"))).
Proof.
  assert (Forall expander_ok [Sample.mcp1]) as Hgood
    by (constructor; [exact sample_expander_ok | constructor]).
  split_and!; [done.. |].
  apply (construct_expander_key_error Sample.faulty [Sample.mcp1]
           {[ "address" := VInt 34 ]} [] "id" eq_refl Hgood).
  left. split; vm_compute; reflexivity.
Defined.

Lemma construct_requires_witness :
  construct board = (tr0, inr m0)
  ∧ Forall expander_ok [Sample.mcp1; Sample.unnamed].
Proof.
  assert (construct board = (tr0, inr m0)) as Hrun by (vm_compute; reflexivity).
  split; [done |]. exact (proj1 (construct_requires board tr0 m0 Hrun)).
Defined.

Lemma construct_raises_without_device_witness :
  relay_pins (Sample.orphan true) = [] ++ [Sample.expander_relay "R1" "mcp9"]
  ∧ Sample.expander_relay "R1" "mcp9" !! ID = Some (VStr "R1")
  ∧ (VStr "R1" ∉ configured_ids [])
  ∧ Sample.expander_relay "R1" "mcp9" !! KIND = Some (VStr "mcp")
  ∧ VStr "mcp" ≠ VStr GPIO
  ∧ ∃ tr e, construct (Sample.orphan true) = (tr, inl e).
Proof.
  assert (Sample.expander_relay "R1" "mcp9" !! ID = Some (VStr "R1")) as Hid
    by (vm_compute; reflexivity).
  assert (VStr "R1" ∉ configured_ids []) as Hlast by apply not_elem_of_nil.
  assert (Sample.expander_relay "R1" "mcp9" !! KIND = Some (VStr "mcp")) as Hkind
    by (vm_compute; reflexivity).
  assert (VStr "mcp" ≠ VStr GPIO) as Hne by (intros [=]).
  split_and!; [done.. |].
  apply (construct_raises_without_device (Sample.orphan true) []
           (Sample.expander_relay "R1" "mcp9") [] (VStr "R1") (VStr "mcp")
           eq_refl Hid Hlast Hkind Hne).
  intros _ mcp Hin. apply list_elem_of_singleton in Hin. subst mcp.
  vm_compute. intros [=].
Defined.

Lemma construct_raise_unannounced_witness :
  let tro := (construct (Sample.orphan true)).1 in
  construct (Sample.orphan true) = (tro, inl (AttributeError "id"))
  ∧ ∀ topic payload, SendMessage topic payload ∈ tro →
      topic ≠ "home1/state" ∧ payload ≠ JStr "online".
Proof.
  intros tro.
  assert (construct (Sample.orphan true) = (tro, inl (AttributeError "id")))
    as Hrun by (vm_compute; reflexivity).
  split; [done |].
  exact (proj2 (construct_raise_unannounced (Sample.orphan true) tro _ Hrun)).
Defined.

Lemma buttons_share_last_actions_witness :
  construct panel = (trp, inr mp)
  ∧ input_pins panel
    = [Sample.input "P9_1" Sample.single_toggles_R1]
      ++ [Sample.input "P9_2" Sample.single_toggles_R2]
  ∧ length (buttons mp) = 2
  ∧ button_press_callback "single" "P9_1" mp
    = press_callback "single" "P9_1" Sample.single_toggles_R2 mp.
Proof.
  assert (construct panel = (trp, inr mp)) as Hrun by (vm_compute; reflexivity).
  split_and!; [done.. | |];
    destruct (buttons_share_last_actions panel trp mp
                [Sample.input "P9_1" Sample.single_toggles_R1]
                (Sample.input "P9_2" Sample.single_toggles_R2)
                "single" "P9_1" Hrun eq_refl) as (Hlen & Hsome & _).
  - exact Hlen.
  - exact (Hsome _ eq_refl).
Defined.

Lemma relay_topic_covers_commands_witness :
  construct board = (tr0, inr m0)
  ∧ relay_topic m0 = "home1/relay/+/set"
  ∧ field "command_topic" (ha_availibilty_message (_topic_prefix m0) (VStr "R1"))
    = Some (JStr "home1/relay/R1/set").
Proof.
  assert (construct board = (tr0, inr m0)) as Hrun by (vm_compute; reflexivity).
  split; [done |].
  exact (relay_topic_covers_commands board tr0 m0 (VStr "R1") Hrun).
Defined.

Lemma construct_trace_witness :
  construct board = (tr0, inr m0)
  ∧ ∃ t2 later,
      Forall comprehension_event t2
      ∧ tr0 = Log INFO "Initializing manager module." :: NewI2C
                :: flat_map expander_events [Sample.mcp1; Sample.unnamed]
                ++ t2 ++ later.
Proof.
  assert (construct board = (tr0, inr m0)) as Hrun by (vm_compute; reflexivity).
  split; [done |].
  destruct (construct_trace board tr0 m0 Hrun) as (t2 & Ht2 & Htr).
  exists t2. eexists. split; [exact Ht2 | exact Htr].
Defined.

Lemma construct_group_names_witness :
  construct panel = (trp, inr mp)
  ∧ VStr "gpio" ∈ dict_keys (_grouped_outputs mp).
Proof.
  assert (construct panel = (trp, inr mp)) as Hrun by (vm_compute; reflexivity).
  split; [done |].
  apply (proj2 (construct_group_names panel trp mp (VStr "gpio") Hrun)).
  right. split; [reflexivity |]. exists (Sample.direct_relay "R2").
  split_and!; [apply list_elem_of_further, list_elem_of_here
              | vm_compute; reflexivity | intros [=]].
Defined.
End further_witnesses.
